(** * drone-runner-kube: a shallow embedding of the stage execution engine

    The development follows the Go packages of the runner:

    - [Secret]    pkg/secret     the static secret provider ([static.Find]);
    - [Registry]  pkg/registry   the combined registry provider;
    - [Compiler]  engine/compiler  run-policy helpers and [configureSerial];
    - [Engine]    engine         [Setup], [Destroy], [Run], [start] and the
                                 watch helpers of the Kubernetes engine;
    - [Runner]    pkg/pipeline/runtime  [Runner.run].

    Conventions.  Go pointers to structs are embedded as the struct itself
    (the runner never passes nil secrets, builds or specs); a nilable
    pointer whose nil-ness is tested by the code is an [option].  A Go
    [error] result is an [option error], [None] standing for nil.  Calls
    that leave the process (the Kubernetes API, the clock, the control
    plane) are recorded, in program order, in a history of events; what
    the outside world answers is given by oracles that may depend on the
    whole history so far. *)

From Stdlib Require Import String Ascii List ZArith QArith Lia Bool Arith.
Import ListNotations.
Local Open Scope string_scope.
Local Open Scope list_scope.
Local Open Scope nat_scope.

(* ===================================================================== *)
(** * Part I: the program                                                *)
(* ===================================================================== *)

(** ** Go errors *)

Module Go.

(** The status reason of an error returned by the Kubernetes API
    (k8s.io/apimachinery/pkg/api/errors). *)
Inductive StatusReason :=
| StatusReasonConflict
| StatusReasonNotFound
| StatusReasonAlreadyExists
| StatusReasonUnknown.

(** Go [error] values that occur in the runner.  [ErrWaitTimeout] and
    [ErrWatchClosed] are the two sentinel errors of the watch tools, which
    the library compares by identity. *)
Inductive error :=
| errorString (msg : string)
| StatusError (reason : StatusReason) (msg : string)
| ErrWaitTimeout
| ErrWatchClosed.

End Go.

(** ** The drone data types used by the runner *)

Module Drone.

Definition EventPullRequest : string := "pull_request".
Definition EventPush : string := "push".

Record Secret := {
  Secret_Name : string;
  Secret_Data : string;
  Secret_PullRequest : bool
}.

Record Build := {
  Build_ID : Z;
  Build_Event : string;
  Build_Params : list (string * string)
}.

Record Repo := {
  Repo_ID : Z;
  Repo_Timeout : Z
}.

(** [drone.Step], a step as stored by the server. *)
Record Step := {
  Step_Name : string;
  Step_Number : Z;
  Step_StageID : Z;
  Step_Status : string;
  Step_ErrIgnore : bool
}.

Record Stage := {
  Stage_ID : Z;
  Stage_Name : string;
  Stage_Number : Z;
  Stage_Machine : string;
  Stage_Status : string;
  Stage_Error : string;
  Stage_Started : Z;
  Stage_Stopped : Z;
  Stage_Steps : list Step
}.

Definition StatusPending : string := "pending".
Definition StatusError : string := "error".
Definition StatusRunning : string := "running".

Record Registry := {
  Registry_Address : string;
  Registry_Username : string;
  Registry_Password : string
}.

End Drone.

(** ** pkg/secret: the static provider *)

Module Secret.
Import Drone.

Record Request := {
  Request_Name : string;
  Request_Build : Build;
  Request_Repo : Repo
}.

Section Static.

(** [strings.EqualFold] of the Go standard library: equality of two
    strings under Unicode simple case folding.  The provider only relies
    on it being a boolean test, so it is kept abstract here; an ASCII
    instance is given below for the concrete scenarios. *)
Variable EqualFold : string -> string -> bool.

(** The guard of the second [continue] of [static.Find]: the secret is not
    enabled for pull requests and the build is a pull request. *)
Definition restricted (secret : Secret) (req : Request) : bool :=
  negb (Secret_PullRequest secret) &&
  String.eqb (Build_Event (Request_Build req)) EventPullRequest.

(** [static.Find]: the loop over [p.secrets], with its two [continue]s
    and its [return secret, nil]; the pair is the Go result (secret,
    error).  The trace messages of the logger are not part of the model. *)
Fixpoint Find (secrets : list Secret) (req : Request)
  : option Secret * option Go.error :=
  match secrets with
  | [] => (None, None)
  | secret :: rest =>
      if negb (EqualFold (Secret_Name secret) (Request_Name req)) then
        Find rest req
      else if restricted secret req then
        Find rest req
      else (Some secret, None)
  end.

End Static.

(** ASCII case folding: the restriction of [strings.EqualFold] to strings
    of ASCII characters. *)
Definition foldAscii (c : ascii) : ascii :=
  let n := nat_of_ascii c in
  if (65 <=? n) && (n <=? 90) then ascii_of_nat (n + 32) else c.

Fixpoint EqualFoldAscii (s t : string) : bool :=
  match s, t with
  | EmptyString, EmptyString => true
  | String a s', String b t' =>
      Ascii.eqb (foldAscii a) (foldAscii b) && EqualFoldAscii s' t'
  | _, _ => false
  end.

End Secret.

(** ** pkg/registry: combined providers *)

Module Registry.
Import Drone.

Record Request := {
  Request_Build : Build;
  Request_Repo : Repo
}.

Section Providers.

(** The state of whatever a provider talks to (a plugin endpoint, a file);
    a provider's [List] may read and change it. *)
Variable W : Type.

(** [Provider.List(ctx, in)] with its Go result (list, error). *)
Definition Provider : Type :=
  Request -> W -> (list Registry * option Go.error) * W.

(** Modelled from the spec: the [List] method of the provider returned by
    [Combine] (pkg/registry/combine.go is absent from the sources, only
    combine_test.go is present).  The spec: "Combine(p1..pN) concatenates
    results preserving input order; on the first error, stop and return
    it."  [out] is the slice accumulated so far. *)
Fixpoint combined_List (sources : list Provider) (req : Request)
  (out : list Registry) (w : W) : (list Registry * option Go.error) * W :=
  match sources with
  | [] => ((out, None), w)
  | source :: rest =>
      let '((list, err), w') := source req w in
      match err with
      | Some e => (([], Some e), w')
      | None => combined_List rest req (out ++ list) w'
      end
  end.

(** Modelled from the spec: [Combine(sources...)], see [combined_List]. *)
Definition Combine (sources : list Provider) : Provider :=
  fun req w => combined_List sources req [] w.

(** The result of every provider's [List], called one after the other,
    each in the world the previous call left; the third component is the
    world after the call. *)
Fixpoint List_each (sources : list Provider) (req : Request) (w : W)
  : list (list Registry * option Go.error * W) :=
  match sources with
  | [] => []
  | source :: rest =>
      let '((list, err), w') := source req w in
      (list, err, w') :: List_each rest req w'
  end.

(** The [mockProvider] of the package's tests: returns its two fields. *)
Definition mockProvider (out : list Registry) (err : option Go.error)
  : Provider :=
  fun _ w => ((out, err), w).

End Providers.

End Registry.

(** ** engine: the Kubernetes engine *)

Module Engine.
Import Go.

(** *** Spec, Step and the pod objects *)

Definition StringMap : Type := list (string * string).

(** [m[k]] of a Go map: the empty string when the key is absent. *)
Fixpoint map_get (m : StringMap) (k : string) : string :=
  match m with
  | [] => ""
  | (k', v) :: rest => if String.eqb k' k then v else map_get rest k
  end.

(** [m[k] = v] of a Go map. *)
Fixpoint map_set (k v : string) (m : StringMap) : StringMap :=
  match m with
  | [] => [(k, v)]
  | (k', v') :: rest =>
      if String.eqb k' k then (k, v) :: rest else (k', v') :: map_set k v rest
  end.

Record PodSpec := {
  PodSpec_Name : string;
  PodSpec_Namespace : string;
  PodSpec_Labels : StringMap
}.

Record PullSecret := {
  PullSecret_Name : string;
  PullSecret_Data : string
}.

Record Step := {
  Step_ID : string;
  Step_Name : string;
  Step_Image : string;
  Step_Placeholder : string;
  Step_Envs : StringMap;
  Step_DependsOn : list string
}.

Record Spec := {
  Spec_PodSpec : PodSpec;
  Spec_PullSecret : option PullSecret;
  Spec_Namespace : string;
  Spec_Steps : list Step
}.

Record Container := {
  Container_Name : string;
  Container_Image : string
}.

Record ContainerStateTerminated := {
  Terminated_ExitCode : Z
}.

Record ContainerState := {
  State_Running : bool;
  State_Terminated : option ContainerStateTerminated
}.

Record ContainerStatus := {
  Status_Name : string;
  Status_Image : string;
  Status_State : ContainerState
}.

Record Pod := {
  Pod_Name : string;
  Pod_Annotations : option StringMap;
  Pod_Containers : list Container;
  Pod_ContainerStatuses : list ContainerStatus
}.

(** [runtime.State], the result of a step. *)
Record State := {
  ExitCode : Z;
  Exited : bool;
  OOMKilled : bool
}.

(** The objects [Setup] submits.  The converters [toNamespace],
    [toDockerConfigSecret], [toSecret] and [toPod] are not among the
    sources; the objects are kept as the terms that build them. *)
Inductive Object :=
| toNamespace (name : string) (labels : StringMap)
| toDockerConfigSecret (spec : Spec)
| toSecret (spec : Spec)
| toPod (spec : Spec).

(** *** Events and the outside world *)

(** Durations are [time.Duration] values: nanoseconds. *)
Definition Millisecond : Z := 1000000.
Definition Second : Z := 1000 * Millisecond.

Inductive Event :=
| After (d : Z)
| Sleep (d : Z)
| Getenv (key : string)
| NamespacesCreate (obj : Object)
| SecretsCreate (namespace : string) (obj : Object)
| PodsCreate (namespace : string) (obj : Object)
| SecretsDelete (namespace name : string)
| PodsDelete (namespace name : string)
| NamespacesDelete (name : string)
| Lock
| Unlock
| PodsGet (namespace name : string)
| PodsUpdate (namespace : string) (pod : Pod)
| PodsLog (namespace name container : string) (follow : bool)
| PodsWatch (namespace label : string).

(** What the informer store holds for the pod once synced. *)
Inductive StoreGet :=
| StoreError (e : error)
| StoreMissing
| StoreNotAPod
| StorePod (pod : Pod).

(** [watch.Event]: the object is [None] when it is not a pod. *)
Inductive WatchEvent :=
| Added (obj : option Pod)
| Modified (obj : option Pod)
| Deleted
| Bookmark
| Error.

(** One run of [watchtools.UntilWithSync] as seen from the condition
    functions: whether the cache synced before the context ended, the
    store content, the events delivered until the context ended
    ([Feed_closed = false]) or the result channel was closed. *)
Record Feed := {
  Feed_synced : bool;
  Feed_store : StoreGet;
  Feed_events : list WatchEvent;
  Feed_closed : bool
}.

(** The outcome of a log request: [req.Stream()] fails, or the stream is
    copied to the output and [livelog.Copy] returns. *)
Inductive LogResult :=
| StreamFailed (e : error)
| Copied (err : option error).

(** [kubernetes.Clientset] as the engine uses it.  Every answer may depend
    on the history of events so far. *)
Record Clientset := {
  api_write : list Event -> Event -> option error;
  api_get : list Event -> string -> string -> Pod + error;
  api_log : list Event -> string -> string -> string -> LogResult;
  api_watch : list Event -> string -> string -> Feed
}.

Record Kubernetes := {
  client : Clientset
}.

(** The process environment and the random source of the backoff. *)
Record Host := {
  os_Getenv : list Event -> string -> string;
  rand_Float64 : list Event -> Q
}.

(** *** The monad of engine operations: state passing over the history *)

Definition M (A : Type) : Type := list Event -> A * list Event.

Definition ret {A} (a : A) : M A := fun h => (a, h).

Definition bind {A B} (m : M A) (f : A -> M B) : M B :=
  fun h => let (a, h') := m h in f a h'.

Declare Scope engine_scope.
Delimit Scope engine_scope with engine.
Notation "x <- c1 ;; c2" := (bind c1 (fun x => c2))
  (at level 61, c1 at next level, right associativity) : engine_scope.
Notation "c1 ;; c2" := (bind c1 (fun _ => c2))
  (at level 61, right associativity) : engine_scope.
Local Open Scope engine_scope.

Definition emit (e : Event) : M unit := fun h => (tt, h ++ [e]).

(** [<-time.After(d)] *)
Definition time_After (d : Z) : M unit := emit (After d).

(** [time.Sleep(d)] *)
Definition time_Sleep (d : Z) : M unit := emit (Sleep d).

(** A mutating API call: Create, Delete or Update. *)
Definition write (k : Kubernetes) (e : Event) : M (option error) :=
  fun h => (api_write (client k) h e, h ++ [e]).

Definition getenv (host : Host) (key : string) : M string :=
  fun h => (os_Getenv host h key, h ++ [Getenv key]).

(** *** Setup and Destroy *)

(** The [*multierror.Error] that [Destroy] returns is the list of its
    [Errors]; [None] is the nil error. *)
Definition multierror_Append (result : option (list error)) (err : error)
  : option (list error) :=
  Some (match result with None => [] | Some errs => errs end ++ [err]).

(** [func (k *Kubernetes) Setup(ctx, specv) error] *)
Definition Setup (k : Kubernetes) (spec : Spec) : M (option error) :=
  err <- (if negb (String.eqb (Spec_Namespace spec) "") then
            write k (NamespacesCreate
                       (toNamespace (Spec_Namespace spec)
                                    (PodSpec_Labels (Spec_PodSpec spec))))
          else ret None) ;;
  match err with
  | Some e => ret (Some e)
  | None =>
  err <- (match Spec_PullSecret spec with
          | Some _ =>
              write k (SecretsCreate (PodSpec_Namespace (Spec_PodSpec spec))
                                     (toDockerConfigSecret spec))
          | None => ret None
          end) ;;
  match err with
  | Some e => ret (Some e)
  | None =>
  err <- write k (SecretsCreate (PodSpec_Namespace (Spec_PodSpec spec))
                                (toSecret spec)) ;;
  match err with
  | Some e => ret (Some e)
  | None =>
  err <- write k (PodsCreate (PodSpec_Namespace (Spec_PodSpec spec))
                             (toPod spec)) ;;
  match err with
  | Some e => ret (Some e)
  | None => ret None
  end end end end.

(** [func (k *Kubernetes) Destroy(ctx, specv) error] *)
Definition Destroy (k : Kubernetes) (spec : Spec) : M (option (list error)) :=
  time_After (Second * 5) ;;
  let result : option (list error) := None in
  result <- (match Spec_PullSecret spec with
             | Some pull =>
                 err <- write k (SecretsDelete
                                   (PodSpec_Namespace (Spec_PodSpec spec))
                                   (PullSecret_Name pull)) ;;
                 match err with
                 | Some e => ret (multierror_Append result e)
                 | None => ret result
                 end
             | None => ret result
             end) ;;
  err <- write k (SecretsDelete (PodSpec_Namespace (Spec_PodSpec spec))
                                (PodSpec_Name (Spec_PodSpec spec))) ;;
  let result := match err with
                | Some e => multierror_Append result e
                | None => result
                end in
  err <- write k (PodsDelete (PodSpec_Namespace (Spec_PodSpec spec))
                             (PodSpec_Name (Spec_PodSpec spec))) ;;
  let result := match err with
                | Some e => multierror_Append result e
                | None => result
                end in
  result <- (if negb (String.eqb (Spec_Namespace spec) "") then
               err <- write k (NamespacesDelete (Spec_Namespace spec)) ;;
               match err with
               | Some e => ret (multierror_Append result e)
               | None => ret result
               end
             else ret result) ;;
  ret result.

(** *** The retry helpers of k8s.io/apimachinery and k8s.io/client-go

    go.mod pins both libraries to v0.16.15.  [float64] factors are
    embedded as rationals; a conversion to [time.Duration] truncates. *)

Record Backoff := {
  Backoff_Duration : Z;
  Backoff_Factor : Q;
  Backoff_Jitter : Q;
  Backoff_Steps : Z;
  Backoff_Cap : Z
}.

(** [var backoff = wait.Backoff{Steps: 15, Duration: 500 * time.Millisecond,
    Factor: 1.0, Jitter: 0.5}] *)
Definition backoff : Backoff := {|
  Backoff_Steps := 15;
  Backoff_Duration := 500 * Millisecond;
  Backoff_Factor := 1;
  Backoff_Jitter := 1 # 2;
  Backoff_Cap := 0
|}.

Definition Qtrunc (q : Q) : Z := Z.quot (Qnum q) (Z.pos (Qden q)).

(** [wait.Jitter]: [duration + Duration(rand.Float64() * maxFactor *
    float64(duration))]. *)
Definition Jitter (host : Host) (duration : Z) (maxFactor : Q) : M Z :=
  fun h =>
    let maxFactor := if Qle_bool maxFactor 0 then 1%Q else maxFactor in
    (duration + Qtrunc (rand_Float64 host h * maxFactor * inject_Z duration),
     h)%Z.

(** [func (b *Backoff) Step() time.Duration]: the pause and the updated
    receiver. *)
Definition Backoff_Step (host : Host) (b : Backoff) : M (Z * Backoff) :=
  if (Backoff_Steps b <? 1)%Z then
    if negb (Qle_bool (Backoff_Jitter b) 0) then
      d <- Jitter host (Backoff_Duration b) (Backoff_Jitter b) ;; ret (d, b)
    else ret (Backoff_Duration b, b)
  else
    let steps := (Backoff_Steps b - 1)%Z in
    let duration := Backoff_Duration b in
    let b' :=
      if negb (Qeq_bool (Backoff_Factor b) 0) then
        let next := Qtrunc (inject_Z (Backoff_Duration b) * Backoff_Factor b) in
        if ((Backoff_Cap b >? 0) && (next >? Backoff_Cap b))%Z then
          {| Backoff_Duration := Backoff_Cap b;
             Backoff_Factor := Backoff_Factor b;
             Backoff_Jitter := Backoff_Jitter b;
             Backoff_Steps := 0;
             Backoff_Cap := Backoff_Cap b |}
        else
          {| Backoff_Duration := next;
             Backoff_Factor := Backoff_Factor b;
             Backoff_Jitter := Backoff_Jitter b;
             Backoff_Steps := steps;
             Backoff_Cap := Backoff_Cap b |}
      else
        {| Backoff_Duration := Backoff_Duration b;
           Backoff_Factor := Backoff_Factor b;
           Backoff_Jitter := Backoff_Jitter b;
           Backoff_Steps := steps;
           Backoff_Cap := Backoff_Cap b |} in
    if negb (Qle_bool (Backoff_Jitter b) 0) then
      d <- Jitter host duration (Backoff_Jitter b) ;; ret (d, b')
    else ret (duration, b').

Definition isSome {A} (o : option A) : bool :=
  match o with Some _ => true | None => false end.

(** [wait.ExponentialBackoff(backoff, condition)].  [St] is the state the
    condition closure captures.  The result is [None] only when [fuel]
    loop iterations did not suffice. *)
Fixpoint ExponentialBackoff {St : Type} (fuel : nat) (host : Host)
  (b : Backoff) (condition : St -> M ((bool * option error) * St)) (s : St)
  : M (option (option error * St)) :=
  match fuel with
  | O => ret None
  | S fuel' =>
      if (Backoff_Steps b >? 0)%Z then
        r <- condition s ;;
        let '((ok, err), s1) := r in
        if isSome err || ok then ret (Some (err, s1))
        else if (Backoff_Steps b =? 1)%Z then
          ret (Some (Some ErrWaitTimeout, s1))
        else
          d <- Backoff_Step host b ;;
          time_Sleep (fst d) ;;
          ExponentialBackoff fuel' host (snd d) condition s1
      else ret (Some (Some ErrWaitTimeout, s))
  end.

Definition isErrWaitTimeout (err : option error) : bool :=
  match err with Some ErrWaitTimeout => true | _ => false end.

(** [retry.OnError(backoff, retriable, fn)]; the captured variable of the
    condition is [lastErr]. *)
Definition OnError (fuel : nat) (host : Host) (b : Backoff)
  (retriable : error -> bool) (fn : M (option error))
  : M (option (option error)) :=
  r <- ExponentialBackoff fuel host b
         (fun lastErr : option error =>
            err <- fn ;;
            match err with
            | None => ret ((true, None), lastErr)
            | Some e =>
                if retriable e then ret ((false, None), Some e)
                else ret ((false, Some e), lastErr)
            end) None ;;
  match r with
  | None => ret None
  | Some (err, lastErr) =>
      ret (Some (if isErrWaitTimeout err then lastErr else err))
  end.

(** [errors.IsConflict] *)
Definition IsConflict (e : error) : bool :=
  match e with
  | StatusError StatusReasonConflict _ => true
  | _ => false
  end.

(** [retry.RetryOnConflict(backoff, fn)].  The loop runs at most
    [backoff.Steps] times, plus one failing test of its guard. *)
Definition RetryOnConflict (host : Host) (b : Backoff) (fn : M (option error))
  : M (option (option error)) :=
  OnError (S (Z.to_nat (Backoff_Steps b))) host b IsConflict fn.

(** *** Running one step *)

Section RunStep.

(** [statusesWhiteList] (a package variable) and [image.Match] (package
    internal/docker/image) are not among the sources. *)
Variable statusesWhiteList : list string.
Variable image_Match : string -> string -> bool.

Variable host : Host.
Variable k : Kubernetes.

(** The annotation updates of [start]: the map is created when nil, then
    every white-listed variable is copied from the step's environment. *)
Definition annotate (step : Step) (annotations : option StringMap)
  : option StringMap :=
  let m := match annotations with None => [] | Some m => m end in
  Some (fold_left
          (fun m env => map_set env (map_get (Step_Envs step) env) m)
          statusesWhiteList m).

(** The [for i, container := range pod.Spec.Containers] loop of [start]. *)
Fixpoint swap (step : Step) (containers : list Container)
  (annotations : option StringMap) : list Container * option StringMap :=
  match containers with
  | [] => ([], annotations)
  | container :: rest =>
      if String.eqb (Container_Name container) (Step_ID step) then
        let (rest', annotations') :=
          swap step rest (annotate step annotations) in
        ({| Container_Name := Container_Name container;
            Container_Image := Step_Image step |} :: rest', annotations')
      else
        let (rest', annotations') := swap step rest annotations in
        (container :: rest', annotations')
  end.

(** The closure [start] hands to [retry.RetryOnConflict]: one
    read-modify-write of the pod under [spec.podUpdateMutex]. *)
Definition start_attempt (spec : Spec) (step : Step) : M (option error) :=
  emit Lock ;;
  r <- (fun h =>
          (api_get (client k) h (PodSpec_Namespace (Spec_PodSpec spec))
                   (PodSpec_Name (Spec_PodSpec spec)),
           h ++ [PodsGet (PodSpec_Namespace (Spec_PodSpec spec))
                         (PodSpec_Name (Spec_PodSpec spec))])) ;;
  match r with
  | inr e => emit Unlock ;; ret (Some e)
  | inl pod =>
      let (containers, annotations) :=
        swap step (Pod_Containers pod) (Pod_Annotations pod) in
      let pod := {| Pod_Name := Pod_Name pod;
                    Pod_Annotations := annotations;
                    Pod_Containers := containers;
                    Pod_ContainerStatuses := Pod_ContainerStatuses pod |} in
      err <- write k (PodsUpdate (PodSpec_Namespace (Spec_PodSpec spec)) pod) ;;
      emit Unlock ;;
      ret err
  end.

(** [func (k *Kubernetes) start(spec, step) error]; [None] when the model
    of the retry loop ran out of fuel (it never does: [start_total]). *)
Definition start (spec : Spec) (step : Step) : M (option (option error)) :=
  RetryOnConflict host backoff (start_attempt spec step).

(** [watchtools.UntilWithoutRetry] for one condition, over the events the
    watch delivers. *)
Fixpoint UntilWithoutRetry {St : Type} (events : list WatchEvent)
  (closed : bool) (condition : WatchEvent -> St -> (bool * option error) * St)
  (s : St) : option error * St :=
  match events with
  | [] => (Some (if closed then ErrWatchClosed else ErrWaitTimeout), s)
  | event :: rest =>
      let '((done, err), s1) := condition event s in
      match err with
      | Some e => (Some e, s1)
      | None =>
          if done then (None, s1)
          else UntilWithoutRetry rest closed condition s1
      end
  end.

(** [watchtools.UntilWithSync] with a precondition. *)
Definition UntilWithSync {St : Type} (feed : Feed)
  (precondition : StoreGet -> St -> (bool * option error) * St)
  (condition : WatchEvent -> St -> (bool * option error) * St) (s : St)
  : option error * St :=
  if negb (Feed_synced feed) then
    (Some (errorString "UntilWithSync: unable to sync caches"), s)
  else
    let '((done, err), s1) := precondition (Feed_store feed) s in
    match err with
    | Some e => (Some e, s1)
    | None =>
        if done then (None, s1)
        else UntilWithoutRetry (Feed_events feed) (Feed_closed feed)
                               condition s1
    end.

(** [func (k *Kubernetes) waitFor(ctx, spec, conditionFunc) error]; [St]
    is the state captured by [conditionFunc]. *)
Definition waitFor {St : Type} (spec : Spec)
  (conditionFunc : Pod -> St -> (bool * option error) * St) (s : St)
  : M (option error * St) :=
  let label :=
    String.append "io.drone.name=" (PodSpec_Name (Spec_PodSpec spec)) in
  let preconditionFunc (store : StoreGet) (s : St) :=
    match store with
    | StoreError e => ((true, Some e), s)
    | StoreMissing => ((true, Some (errorString "pod doesn't exist")), s)
    | StoreNotAPod => ((true, Some (errorString "unexpected object type")), s)
    | StorePod pod => conditionFunc pod s
    end in
  let handler (e : WatchEvent) (s : St) :=
    match e with
    | Added obj | Modified obj =>
        match obj with
        | None => ((false, None), s)
        | Some pod =>
            if negb (String.eqb (Pod_Name pod)
                                (PodSpec_Name (Spec_PodSpec spec)))
            then ((false, None), s)
            else conditionFunc pod s
        end
    | Deleted => ((false, Some (errorString "pod got deleted")), s)
    | _ => ((false, None), s)
    end in
  fun h =>
    (UntilWithSync
       (api_watch (client k) h (PodSpec_Namespace (Spec_PodSpec spec)) label)
       preconditionFunc handler s,
     h ++ [PodsWatch (PodSpec_Namespace (Spec_PodSpec spec)) label]).

(** The condition of [waitForReady]. *)
Fixpoint ready (step : Step) (statuses : list ContainerStatus) : bool :=
  match statuses with
  | [] => false
  | cs :: rest =>
      if negb (String.eqb (Status_Name cs) (Step_ID step)) then ready step rest
      else if negb (image_Match (Status_Image cs) (Step_Placeholder step)) &&
              (State_Running (Status_State cs) ||
               isSome (State_Terminated (Status_State cs)))
      then true
      else ready step rest
  end.

(** [func (k *Kubernetes) waitForReady(ctx, spec, step) error] *)
Definition waitForReady (spec : Spec) (step : Step) : M (option error) :=
  r <- waitFor spec
         (fun pod (_ : unit) =>
            ((ready step (Pod_ContainerStatuses pod), None), tt)) tt ;;
  ret (fst r).

(** The condition of [waitForTerminated]; [state] is the captured
    [*runtime.State]. *)
Fixpoint terminated (step : Step) (statuses : list ContainerStatus)
  (state : State) : (bool * option error) * State :=
  match statuses with
  | [] => ((false, None), state)
  | cs :: rest =>
      if negb (String.eqb (Status_Name cs) (Step_ID step)) then
        terminated step rest state
      else if negb (image_Match (Status_Image cs) (Step_Placeholder step))
      then
        match State_Terminated (Status_State cs) with
        | Some t =>
            ((true, None),
             {| ExitCode := Terminated_ExitCode t;
                Exited := Exited state;
                OOMKilled := OOMKilled state |})
        | None => terminated step rest state
        end
      else terminated step rest state
  end.

(** [func (k *Kubernetes) waitForTerminated(ctx, spec, step)]; the pair
    is the Go result (state, error). *)
Definition waitForTerminated (spec : Spec) (step : Step)
  : M (option State * option error) :=
  let state := {| ExitCode := 0; Exited := true; OOMKilled := false |} in
  r <- waitFor spec
         (fun pod state => terminated step (Pod_ContainerStatuses pod) state)
         state ;;
  match fst r with
  | Some e => ret (None, Some e)
  | None => ret (Some (snd r), None)
  end.

(** [func (k *Kubernetes) tail(ctx, spec, step, output) error].  The bytes
    copied to [output] are not part of the model. *)
Definition tail (spec : Spec) (step : Step) : M (option error) :=
  fun h =>
    (match api_log (client k) h (PodSpec_Namespace (Spec_PodSpec spec))
                   (PodSpec_Name (Spec_PodSpec spec)) (Step_ID step) with
     | StreamFailed e => Some e
     | Copied err => err
     end,
     h ++ [PodsLog (PodSpec_Namespace (Spec_PodSpec spec))
                   (PodSpec_Name (Spec_PodSpec spec)) (Step_ID step) true]).

(** [func (k *Kubernetes) Run(ctx, specv, stepv, output)]; the pair is the
    Go result (state, error), the outer [option] is [None] only when
    [start] ran out of fuel. *)
Definition Run (spec : Spec) (step : Step)
  : M (option (option State * option error)) :=
  r <- start spec step ;;
  match r with
  | None => ret None
  | Some (Some e) => ret (Some (None, Some e))
  | Some None =>
  err <- waitForReady spec step ;;
  match err with
  | Some e => ret (Some (None, Some e))
  | None =>
  err <- tail spec step ;;
  err <- (match err with
          | Some _ =>
              flag <- getenv host "DRONE_FEATURE_FLAG_RETRY_LOGS" ;;
              err <- (if String.eqb flag "true" then
                        time_After (Second * 5) ;;
                        tail spec step
                      else ret err) ;;
              match err with
              | Some _ =>
                  time_After (Second * 5) ;;
                  tail spec step
              | None => ret err
              end
          | None => ret err
          end) ;;
  match err with
  | Some e => ret (Some (None, Some e))
  | None =>
      r <- waitForTerminated spec step ;;
      ret (Some r)
  end end end.

End RunStep.

End Engine.

(** ** engine/resource and engine/compiler *)

Module Resource.

(** [manifest.Condition] and the [when] clause of a step. *)
Record Condition := {
  Include : list string;
  Exclude : list string
}.

Record Conditions := {
  Status : Condition
}.

Record Step := {
  Step_Name : string;
  When : Conditions
}.

End Resource.

Module Compiler.
Import Engine.

Definition contains (set : list string) (x : string) : bool :=
  existsb (String.eqb x) set.

(** Modelled from the spec: [isRunAlways] (engine/compiler/util.go is
    absent from the sources, only its tests are present).  The spec:
    "isRunAlways <=> the when.status include-set contains BOTH success AND
    failure". *)
Definition isRunAlways (step : Resource.Step) : bool :=
  contains (Resource.Include (Resource.Status (Resource.When step))) "success"
  && contains (Resource.Include (Resource.Status (Resource.When step)))
              "failure".

(** Modelled from the spec: [isRunOnFailure] (same file).  The spec:
    "isRunOnFailure <=> the include-set contains failure". *)
Definition isRunOnFailure (step : Resource.Step) : bool :=
  contains (Resource.Include (Resource.Status (Resource.When step))) "failure".

Definition set_DependsOn (step : Step) (deps : list string) : Step := {|
  Step_ID := Step_ID step;
  Step_Name := Step_Name step;
  Step_Image := Step_Image step;
  Step_Placeholder := Step_Placeholder step;
  Step_Envs := Step_Envs step;
  Step_DependsOn := deps
|}.

(** The loop of [configureSerial]: [prev] is the step visited before. *)
Fixpoint serial (prev : option Step) (steps : list Step) : list Step :=
  match steps with
  | [] => []
  | step :: rest =>
      let step' :=
        match prev with
        | Some p => set_DependsOn step [Step_Name p]
        | None => step
        end in
      step' :: serial (Some step') rest
  end.

(** Modelled from the spec: [configureSerial] (engine/compiler/util.go is
    absent from the sources, only its tests are present).  The spec:
    "configureSerial: each step depends on its predecessor (serial
    chain)". *)
Definition configureSerial (spec : Spec) : Spec := {|
  Spec_PodSpec := Spec_PodSpec spec;
  Spec_PullSecret := Spec_PullSecret spec;
  Spec_Namespace := Spec_Namespace spec;
  Spec_Steps := serial None (Spec_Steps spec)
|}.

End Compiler.

(** ** pkg/pipeline/runtime: the runner *)

Module Runner.
Import Go Drone.

Inductive RunPolicy := RunOnSuccess | RunOnFailure | RunAlways | RunNever.
Inductive ErrPolicy := ErrFail | ErrIgnore.

Definition RunPolicy_eqb (a b : RunPolicy) : bool :=
  match a, b with
  | RunOnSuccess, RunOnSuccess | RunOnFailure, RunOnFailure
  | RunAlways, RunAlways | RunNever, RunNever => true
  | _, _ => false
  end.

Definition ErrPolicy_eqb (a b : ErrPolicy) : bool :=
  match a, b with
  | ErrFail, ErrFail | ErrIgnore, ErrIgnore => true
  | _, _ => false
  end.

(** The [runtime.Step] interface, as far as [run] uses it. *)
Record Step := {
  GetName : string;
  GetRunPolicy : RunPolicy;
  GetErrPolicy : ErrPolicy
}.

Section Run.

(** Types of the collaborating packages that [run] only passes along. *)
Variables Manifest Resource System Netrc SecretProvider Spec : Type.

(** [client.Context], the stage details fetched from the server. *)
Record Context := {
  Context_Build : Build;
  Context_Repo : Repo;
  Context_System : System;
  Context_Config : string;
  Context_Secrets : list Secret;
  Context_Netrc : Netrc
}.

(** [pipeline.State].  [State_Stage] is the stage object itself: Go shares
    it by pointer, here the current stage is put in whenever the state is
    handed over. *)
Record State := {
  State_Build : Build;
  State_Stage : Stage;
  State_Repo : Repo;
  State_System : System
}.

Record CompilerArgs := {
  Args_Pipeline : Resource;
  Args_Manifest : Manifest;
  Args_Build : Build;
  Args_Stage : Stage;
  Args_Repo : Repo;
  Args_System : System;
  Args_Netrc : Netrc;
  Args_Secret : SecretProvider
}.

(** The [runtime.Spec] interface and the functions of packages that are
    not among the sources (environ, strconv, envsubst, manifest, secret,
    pipeline, time), as [run] uses them. *)
Record Imports := {
  StepLen : Spec -> nat;
  StepAt : Spec -> nat -> Step;
  environ_Combine : list (list (string * string)) -> string -> string;
  environ_System : System -> list (string * string);
  environ_Repo : Repo -> list (string * string);
  environ_Build : Build -> list (string * string);
  environ_Stage : Stage -> list (string * string);
  environ_Link : Repo -> Build -> System -> list (string * string);
  strconv_Quote : string -> string;
  envsubst_Eval : string -> (string -> string) -> string + error;
  manifest_ParseString : string -> Manifest + error;
  secret_Combine_Static_Encrypted : list Secret -> SecretProvider;
  State_FailAll : error -> State -> State;
  time_Now_Unix : Z
}.

Variable pkg : Imports.

(** The [Runner] struct: its collaborators, as functions. *)
Record Runner := {
  Machine : string;
  Environ : list (string * string);
  Client_Update : Stage -> option error;
  Compiler_Compile : CompilerArgs -> Spec;
  Reporter_ReportStage : State -> option error;
  Exec : Spec -> State -> option error;
  Lint : Resource -> Repo -> option error;
  Match : option (Repo -> Build -> bool);
  Lookup : string -> Manifest -> Resource + error
}.

(** Calls of [run] that leave the runner, in program order. *)
Inductive Event :=
| GoWatch (build : Z)
| ReportStage (state : State)
| Compile (args : CompilerArgs)
| Update (stage : Stage)
| Execute (spec : Spec) (state : State).

Definition M (A : Type) : Type := list Event -> A * list Event.

Definition call {A} (e : Event) (answer : A) : M A :=
  fun h => (answer, h ++ [e]).

Definition bind {A B} (m : M A) (f : A -> M B) : M B :=
  fun h => let (a, h') := m h in f a h'.

(** [strings.Contains(v, "\n")] *)
Fixpoint contains_newline (v : string) : bool :=
  match v with
  | EmptyString => false
  | String c rest =>
      if Ascii.eqb c (ascii_of_nat 10) then true else contains_newline rest
  end.

(** [state.FailAll(err); return s.Reporter.ReportStage(noContext, state)] *)
Definition fail (s : Runner) (err : error) (state : State) : M (option error) :=
  let state := State_FailAll pkg err state in
  call (ReportStage state) (Reporter_ReportStage s state).

(** The loop of [run] that fills [stage.Steps] from the compiled spec. *)
Fixpoint populate (spec : Spec) (indices : list nat) (stage : Stage) : Stage :=
  match indices with
  | [] => stage
  | i :: rest =>
      let src := StepAt pkg spec i in
      if RunPolicy_eqb (GetRunPolicy src) RunNever then
        populate spec rest stage
      else
        populate spec rest {|
          Stage_ID := Stage_ID stage;
          Stage_Name := Stage_Name stage;
          Stage_Number := Stage_Number stage;
          Stage_Machine := Stage_Machine stage;
          Stage_Status := Stage_Status stage;
          Stage_Error := Stage_Error stage;
          Stage_Started := Stage_Started stage;
          Stage_Stopped := Stage_Stopped stage;
          Stage_Steps :=
            Stage_Steps stage ++
            [ {| Step_Name := GetName src;
                 Step_Number := Z.of_nat (length (Stage_Steps stage)) + 1;
                 Step_StageID := Stage_ID stage;
                 Step_Status := StatusPending;
                 Step_ErrIgnore := ErrPolicy_eqb (GetErrPolicy src) ErrIgnore |} ]
        |}
  end.

(** The closure [subf] of [run]: the value of a variable in the combined
    environment, quoted when it contains a newline. *)
Definition subf (s : Runner) (stage : Stage) (data : Context) (k : string)
  : string :=
  let envs := environ_Combine pkg [
    Environ s;
    environ_System pkg (Context_System data);
    environ_Repo pkg (Context_Repo data);
    environ_Build pkg (Context_Build data);
    environ_Stage pkg stage;
    environ_Link pkg (Context_Repo data) (Context_Build data) (Context_System data);
    Build_Params (Context_Build data) ] in
  let v := envs k in
  if contains_newline v then strconv_Quote pkg v else v.

(** The [pipeline.State] that [run] creates. *)
Definition new_state (stage : Stage) (data : Context) : State := {|
  State_Build := Context_Build data;
  State_Stage := stage;
  State_Repo := Context_Repo data;
  State_System := Context_System data
|}.

(** The configuration of the stage fails with [err] at shell
    substitution, at YAML parsing, at the lookup of the stage's resource
    or at linting, whichever comes first. *)
Definition config_fails (s : Runner) (stage : Stage) (data : Context)
  (err : error) : Prop :=
  envsubst_Eval pkg (Context_Config data) (subf s stage data) = inr err \/
  exists config,
    envsubst_Eval pkg (Context_Config data) (subf s stage data) = inl config /\
    (manifest_ParseString pkg config = inr err \/
     exists manifest,
       manifest_ParseString pkg config = inl manifest /\
       (Lookup s (Stage_Name stage) manifest = inr err \/
        exists resource,
          Lookup s (Stage_Name stage) manifest = inl resource /\
          Lint s resource (Context_Repo data) = Some err)).

(** The [Match] test of [run] lets the build through. *)
Definition admitted (s : Runner) (data : Context) : Prop :=
  match Match s with
  | Some f => f (Context_Repo data) (Context_Build data) = true
  | None => True
  end.

(** [func (s *Runner) run(ctx, stage, data) error].  The contexts and the
    body of the goroutine that watches for cancellation are not modelled;
    its launch is the event [GoWatch]. *)
Definition run (s : Runner) (stage : Stage) (data : Context)
  : M (option error) :=
  bind (call (GoWatch (Build_ID (Context_Build data))) tt) (fun _ =>
  let subf := subf s stage data in
  let state := new_state stage data in
  if match Match s with
     | Some f => negb (f (Context_Repo data) (Context_Build data))
     | None => false
     end
  then fail s (errorString "insufficient permission to run the pipeline") state
  else
  match envsubst_Eval pkg (Context_Config data) subf with
  | inr err => fail s err state
  | inl config =>
  match manifest_ParseString pkg config with
  | inr err => fail s err state
  | inl manifest =>
  match Lookup s (Stage_Name stage) manifest with
  | inr err => fail s err state
  | inl resource =>
  match Lint s resource (Context_Repo data) with
  | Some err => fail s err state
  | None =>
  let secrets := secret_Combine_Static_Encrypted pkg (Context_Secrets data) in
  let args := {|
    Args_Pipeline := resource;
    Args_Manifest := manifest;
    Args_Build := Context_Build data;
    Args_Stage := stage;
    Args_Repo := Context_Repo data;
    Args_System := Context_System data;
    Args_Netrc := Context_Netrc data;
    Args_Secret := secrets |} in
  bind (call (Compile args) (Compiler_Compile s args)) (fun spec =>
  let stage := populate spec (seq 0 (StepLen pkg spec)) stage in
  let stage := {|
    Stage_ID := Stage_ID stage;
    Stage_Name := Stage_Name stage;
    Stage_Number := Stage_Number stage;
    Stage_Machine := Stage_Machine stage;
    Stage_Status := StatusRunning;
    Stage_Error := Stage_Error stage;
    Stage_Started := time_Now_Unix pkg;
    Stage_Stopped := Stage_Stopped stage;
    Stage_Steps := Stage_Steps stage |} in
  bind (call (Update stage) (Client_Update s stage)) (fun err =>
  match err with
  | Some e => (fun h => (Some e, h))
  | None =>
      let state := new_state stage data in
      call (Execute spec state) (Exec s spec state)
  end))
  end end end end).

End Run.

Arguments GoWatch {Manifest Resource System Netrc SecretProvider Spec} build.
Arguments ReportStage {Manifest Resource System Netrc SecretProvider Spec}
  state.
Arguments Compile {Manifest Resource System Netrc SecretProvider Spec} args.
Arguments Update {Manifest Resource System Netrc SecretProvider Spec} stage.
Arguments Execute {Manifest Resource System Netrc SecretProvider Spec}
  spec state.
Arguments subf {Manifest Resource System Netrc SecretProvider Spec}
  pkg s stage data k.
Arguments new_state {System Netrc} stage data.
Arguments config_fails {Manifest Resource System Netrc SecretProvider Spec}
  pkg s stage data err.
Arguments admitted {Manifest Resource System Netrc SecretProvider Spec} s data.
Arguments fail {Manifest Resource System Netrc SecretProvider Spec}
  pkg s err state.
Arguments run {Manifest Resource System Netrc SecretProvider Spec}
  pkg s stage data.
Arguments Context_Build {System Netrc} c.
Arguments Context_Repo {System Netrc} c.
Arguments State_FailAll {Manifest System SecretProvider Spec} i.
Arguments State_Build {System} s.
Arguments State_Stage {System} s.
Arguments State_Repo {System} s.
Arguments State_System {System} s.
Arguments Reporter_ReportStage
  {Manifest Resource System Netrc SecretProvider Spec} r.
Arguments Match {Manifest Resource System Netrc SecretProvider Spec} r.

End Runner.

(** ** The spec's reading of Setup and Destroy

    The definitions of this module follow the words of the spec, not the
    code; Part II compares them with [Engine.Setup] and [Engine.Destroy]. *)

Module Lifecycle.
Import Go Engine.

(** "creation of: namespace (only if owned by this stage), pull secret,
    generic secret, pod", in that order. *)
Definition Setup_plan (spec : Spec) : list Event :=
  (if String.eqb (Spec_Namespace spec) "" then []
   else [NamespacesCreate (toNamespace (Spec_Namespace spec)
                                       (PodSpec_Labels (Spec_PodSpec spec)))])
  ++ (match Spec_PullSecret spec with
      | Some _ => [SecretsCreate (PodSpec_Namespace (Spec_PodSpec spec))
                                 (toDockerConfigSecret spec)]
      | None => []
      end)
  ++ [SecretsCreate (PodSpec_Namespace (Spec_PodSpec spec)) (toSecret spec);
      PodsCreate (PodSpec_Namespace (Spec_PodSpec spec)) (toPod spec)].

(** The deletions of Destroy: pull secret when present, generic secret,
    pod, namespace when owned. *)
Definition Destroy_plan (spec : Spec) : list Event :=
  (match Spec_PullSecret spec with
   | Some pull => [SecretsDelete (PodSpec_Namespace (Spec_PodSpec spec))
                                 (PullSecret_Name pull)]
   | None => []
   end)
  ++ [SecretsDelete (PodSpec_Namespace (Spec_PodSpec spec))
                    (PodSpec_Name (Spec_PodSpec spec));
      PodsDelete (PodSpec_Namespace (Spec_PodSpec spec))
                 (PodSpec_Name (Spec_PodSpec spec))]
  ++ (if String.eqb (Spec_Namespace spec) "" then []
      else [NamespacesDelete (Spec_Namespace spec)]).

(** What the API server answers when [calls] are issued one after the
    other, starting from history [h]. *)
Fixpoint answers (k : Kubernetes) (h : list Event) (calls : list Event)
  : list (option error) :=
  match calls with
  | [] => []
  | c :: rest => api_write (client k) h c :: answers k (h ++ [c]) rest
  end.

(** "Any partial failure returns the first error": issue the calls in
    order and stop at the first error. *)
Fixpoint until_error (k : Kubernetes) (calls : list Event) : M (option error) :=
  match calls with
  | [] => ret None
  | c :: rest =>
      bind (write k c) (fun err =>
        match err with
        | Some e => ret (Some e)
        | None => until_error k rest
        end)
  end.

(** The errors among the answers, in order. *)
Fixpoint failures (answers : list (option error)) : list error :=
  match answers with
  | [] => []
  | Some e :: rest => e :: failures rest
  | None :: rest => failures rest
  end.

(** The kind of API resource a create or delete call addresses. *)
Inductive Kind := KNamespace | KSecret | KPod.

Definition kind (e : Event) : option Kind :=
  match e with
  | NamespacesCreate _ | NamespacesDelete _ => Some KNamespace
  | SecretsCreate _ _ | SecretsDelete _ _ => Some KSecret
  | PodsCreate _ _ | PodsDelete _ _ => Some KPod
  | _ => None
  end.

Definition Kind_eqb (a b : Kind) : bool :=
  match a, b with
  | KNamespace, KNamespace | KSecret, KSecret | KPod, KPod => true
  | _, _ => false
  end.

(** How many calls of [calls] address resources of kind [kd]. *)
Definition count (kd : Kind) (calls : list Event) : nat :=
  length (filter (fun e => match kind e with
                           | Some kd' => Kind_eqb kd kd'
                           | None => false
                           end) calls).

End Lifecycle.

(** ** What a run of the engine shows

    Readings of the event history, used to state the properties of
    [Engine.Run] and [Engine.start]. *)

Module Observe.
Import Go Engine.

(** The pods a watch shows to the condition functions: the content of
    the informer store and the objects of the added and modified
    events. *)
Definition observes (feed : Feed) (pod : Pod) : Prop :=
  Feed_store feed = StorePod pod \/
  In (Added (Some pod)) (Feed_events feed) \/
  In (Modified (Some pod)) (Feed_events feed).

(** The exit code recorded in [state] is that of a terminated container
    status of the step, running an image other than the placeholder, in
    a pod that [feed] shows. *)
Definition captured (image_Match : string -> string -> bool) (step : Step)
  (feed : Feed) (state : State) : Prop :=
  exists pod cs t,
    observes feed pod /\
    In cs (Pod_ContainerStatuses pod) /\
    Status_Name cs = Step_ID step /\
    State_Terminated (Status_State cs) = Some t /\
    image_Match (Status_Image cs) (Step_Placeholder step) = false /\
    ExitCode state = Terminated_ExitCode t.

(** The number of log requests in a history. *)
Fixpoint tails (t : list Event) : nat :=
  match t with
  | [] => 0
  | PodsLog _ _ _ _ :: rest => S (tails rest)
  | _ :: rest => tails rest
  end.

(** The number of read-modify-write attempts in a history: each attempt
    starts by taking the pod mutex. *)
Fixpoint attempts (t : list Event) : nat :=
  match t with
  | [] => 0
  | Lock :: rest => S (attempts rest)
  | _ :: rest => attempts rest
  end.

(** The pauses of the retry loop in a history, in order. *)
Fixpoint pauses (t : list Event) : list Z :=
  match t with
  | [] => []
  | Sleep d :: rest => d :: pauses rest
  | _ :: rest => pauses rest
  end.

(** The backoff of [start] once its [Steps] are down to [n]: with factor
    1.0 and no cap, [Step] changes nothing else. *)
Definition remaining (n : Z) : Backoff := {|
  Backoff_Steps := n;
  Backoff_Duration := 500 * Millisecond;
  Backoff_Factor := 1;
  Backoff_Jitter := 1 # 2;
  Backoff_Cap := 0
|}.

(** Every draw of [rand.Float64] lies in the half-open interval from 0
    to 1, as the Go library promises. *)
Definition unit_interval (host : Host) : Prop :=
  forall h, (0 <= rand_Float64 host h)%Q /\ (rand_Float64 host h < 1)%Q.

(** The API server never answers a pod read or write with a conflict. *)
Definition never_conflicts (k : Kubernetes) : Prop :=
  (forall h ns name e,
     api_get (client k) h ns name = inr e -> IsConflict e = false) /\
  (forall h ev e, api_write (client k) h ev = Some e -> IsConflict e = false).

(** Every pod read succeeds and every write is answered by a conflict. *)
Definition always_conflicts (k : Kubernetes) : Prop :=
  (forall h ns name, exists pod, api_get (client k) h ns name = inl pod) /\
  (forall h ev, exists e,
     api_write (client k) h ev = Some e /\ IsConflict e = true).

(** "The delay between attempts grows": every pause is longer than the
    one before it. *)
Definition grows (ds : list Z) : Prop :=
  forall i d1 d2,
    nth_error ds i = Some d1 -> nth_error ds (S i) = Some d2 -> (d1 < d2)%Z.

End Observe.

(** ** Concrete scenarios *)

Module Scenario.
Import Go Engine.

(** A step as the compiler tests build it: only the name and the
    dependencies are set. *)
Definition named (name : string) (deps : list string) : Step := {|
  Step_ID := "";
  Step_Name := name;
  Step_Image := "";
  Step_Placeholder := "";
  Step_Envs := [];
  Step_DependsOn := deps
|}.

Definition pipeline (steps : list Step) : Spec := {|
  Spec_PodSpec := {| PodSpec_Name := "drone-pod";
                     PodSpec_Namespace := "drone";
                     PodSpec_Labels := [] |};
  Spec_PullSecret := None;
  Spec_Namespace := "";
  Spec_Steps := steps
|}.

(** The input of Test_configureSerial. *)
Definition build_test_deploy : Spec :=
  pipeline [named "build" []; named "test" []; named "deploy" []].

(** A pod with one step, and a world for running it. *)
Definition placeholder : string := "drone/placeholder:1".

Definition build_step : Step := {|
  Step_ID := "step-1";
  Step_Name := "build";
  Step_Image := "golang:1.15";
  Step_Placeholder := placeholder;
  Step_Envs := [("DRONE_BUILD_STATUS", "success")];
  Step_DependsOn := []
|}.

Definition one_step : Spec := pipeline [build_step].

Definition whitelist : list string :=
  ["DRONE_BUILD_STATUS"; "DRONE_STAGE_STATUS"].

(** The pod as created by Setup: the step's container holds the
    placeholder image. *)
Definition pending_pod : Pod := {|
  Pod_Name := "drone-pod";
  Pod_Annotations := None;
  Pod_Containers := [ {| Container_Name := "step-1";
                         Container_Image := placeholder |} ];
  Pod_ContainerStatuses := []
|}.

(** The pod once the step's container ran the real image and exited
    with code 3. *)
Definition finished_pod : Pod := {|
  Pod_Name := "drone-pod";
  Pod_Annotations := None;
  Pod_Containers := [ {| Container_Name := "step-1";
                         Container_Image := "golang:1.15" |} ];
  Pod_ContainerStatuses :=
    [ {| Status_Name := "step-1";
         Status_Image := "golang:1.15";
         Status_State :=
           {| State_Running := false;
              State_Terminated := Some {| Terminated_ExitCode := 3 |} |} |} ]
|}.

Definition isLog (e : Event) : bool :=
  match e with PodsLog _ _ _ _ => true | _ => false end.

Definition isUpdate (e : Event) : bool :=
  match e with PodsUpdate _ _ => true | _ => false end.

(** An API server on which the first log request of a run fails and every
    later one succeeds; everything else succeeds at once. *)
Definition flaky_logs : Kubernetes := {| client := {|
  api_write := fun _ _ => None;
  api_get := fun _ _ _ => inl pending_pod;
  api_log := fun h _ _ _ =>
    if existsb isLog h then Copied None
    else StreamFailed (errorString "container is waiting to start");
  api_watch := fun _ _ _ =>
    {| Feed_synced := true; Feed_store := StorePod finished_pod;
       Feed_events := []; Feed_closed := false |}
|} |}.

(** An API server on which every log request fails. *)
Definition failing_logs : Kubernetes := {| client := {|
  api_write := fun _ _ => None;
  api_get := fun _ _ _ => inl pending_pod;
  api_log := fun _ _ _ _ =>
    StreamFailed (errorString "container is waiting to start");
  api_watch := fun _ _ _ =>
    {| Feed_synced := true; Feed_store := StorePod finished_pod;
       Feed_events := []; Feed_closed := false |}
|} |}.

(** An API server that answers every pod update with a conflict. *)
Definition conflicting : Kubernetes := {| client := {|
  api_write := fun _ _ =>
    Some (StatusError StatusReasonConflict "the object has been modified");
  api_get := fun _ _ _ => inl pending_pod;
  api_log := fun _ _ _ _ => Copied None;
  api_watch := fun _ _ _ =>
    {| Feed_synced := true; Feed_store := StorePod finished_pod;
       Feed_events := []; Feed_closed := false |}
|} |}.

(** An API server that answers the first pod update with a conflict. *)
Definition conflict_once : Kubernetes := {| client := {|
  api_write := fun h _ =>
    if existsb isUpdate h then None
    else Some (StatusError StatusReasonConflict
                           "the object has been modified");
  api_get := fun _ _ _ => inl pending_pod;
  api_log := fun _ _ _ _ => Copied None;
  api_watch := fun _ _ _ =>
    {| Feed_synced := true; Feed_store := StorePod finished_pod;
       Feed_events := []; Feed_closed := false |}
|} |}.

(** A process without DRONE_FEATURE_FLAG_RETRY_LOGS (every variable is
    unset) whose random source always draws one half. *)
Definition flag_unset : Host := {|
  os_Getenv := fun _ _ => "";
  rand_Float64 := fun _ => 1 # 2
|}.

(** The same process with the flag set to true. *)
Definition flag_set : Host := {|
  os_Getenv := fun _ key =>
    if String.eqb key "DRONE_FEATURE_FLAG_RETRY_LOGS" then "true" else "";
  rand_Float64 := fun _ => 1 # 2
|}.

End Scenario.

Module RunnerScenario.
Import Go Drone Runner.

Definition message (err : error) : string :=
  match err with
  | errorString msg => msg
  | Go.StatusError _ msg => msg
  | ErrWaitTimeout => "timed out waiting for the condition"
  | ErrWatchClosed => "watch closed before UntilWithoutRetry timeout"
  end.

(** Imports for a runner whose manifests and resources are plain text: an
    empty configuration does not parse. *)
Definition imports : Imports string unit unit (list Runner.Step) := {|
  StepLen := fun spec => length spec;
  StepAt := fun spec i =>
    nth i spec {| GetName := ""; GetRunPolicy := RunNever;
                  GetErrPolicy := ErrFail |};
  environ_Combine := fun maps key =>
    fold_left (fun v m => match find (fun kv => String.eqb (fst kv) key) m with
                          | Some kv => snd kv
                          | None => v
                          end) maps "";
  environ_System := fun _ => [];
  environ_Repo := fun _ => [];
  environ_Build := fun _ => [];
  environ_Stage := fun stage => [("DRONE_STAGE_NAME", Stage_Name stage)];
  environ_Link := fun _ _ _ => [];
  strconv_Quote := fun v => v;
  envsubst_Eval := fun config _ => inl config;
  manifest_ParseString := fun config =>
    if String.eqb config "" then inr (errorString "yaml: empty document")
    else inl config;
  secret_Combine_Static_Encrypted := fun _ => tt;
  State_FailAll := fun err state => {|
    State_Build := State_Build state;
    State_Stage := {|
      Stage_ID := Stage_ID (State_Stage state);
      Stage_Name := Stage_Name (State_Stage state);
      Stage_Number := Stage_Number (State_Stage state);
      Stage_Machine := Stage_Machine (State_Stage state);
      Stage_Status := Drone.StatusError;
      Stage_Error := message err;
      Stage_Started := Stage_Started (State_Stage state);
      Stage_Stopped := Stage_Stopped (State_Stage state);
      Stage_Steps := Stage_Steps (State_Stage state) |};
    State_Repo := State_Repo state;
    State_System := State_System state |};
  time_Now_Unix := 1600000000
|}.

Definition runner
  : Runner.Runner string string unit unit unit (list Runner.Step) := {|
  Machine := "runner-1";
  Environ := [];
  Client_Update := fun _ => None;
  Compiler_Compile := fun _ => [];
  Reporter_ReportStage := fun _ => None;
  Exec := fun _ _ => None;
  Lint := fun _ _ => None;
  Match := None;
  Lookup := fun _ manifest => inl manifest
|}.

Definition stage : Stage := {|
  Stage_ID := 7;
  Stage_Name := "default";
  Stage_Number := 1;
  Stage_Machine := "runner-1";
  Stage_Status := StatusPending;
  Stage_Error := "";
  Stage_Started := 0;
  Stage_Stopped := 0;
  Stage_Steps := []
|}.

(** Stage details with an empty configuration file. *)
Definition empty_config : Context unit unit := {|
  Context_Build := {| Build_ID := 42; Build_Event := EventPush;
                      Build_Params := [] |};
  Context_Repo := {| Repo_ID := 1; Repo_Timeout := 60 |};
  Context_System := tt;
  Context_Config := "";
  Context_Secrets := [];
  Context_Netrc := tt
|}.

End RunnerScenario.

(** ** pkg/secret: building static providers *)

Module SecretStatic.
Import Drone Secret.

(** [Static(secrets)]: the provider [&static{secrets}] is its list. *)
Definition Static (secrets : list Secret) : list Secret := secrets.

(** [StaticVars(vars)].  A Go map is ranged over in an unspecified order;
    [vars] lists the entries in the order of that iteration.  The fields
    the literal leaves out keep their zero value: [PullRequest] is
    false. *)
Definition StaticVars (vars : list (string * string)) : list Secret :=
  Static (map (fun kv => {| Secret_Name := fst kv;
                            Secret_Data := snd kv;
                            Secret_PullRequest := false |}) vars).

End SecretStatic.

(** ** engine: creating the engine *)

Module EngineNew.
Import Go Engine.

Section New.

(** [*rest.Config] *)
Variable Config : Type.

(** The functions of client-go and of the Go library that the
    constructors call, with what they answer. *)
Record Outside := {
  rest_InClusterConfig : Config + error;
  clientcmd_BuildConfigFromFlags : string -> string -> Config + error;
  kubernetes_NewForConfig : Config -> Clientset + error;
  os_UserHomeDir : string * option error;
  filepath_Join : list string -> string
}.

Variable out : Outside.

(** [func NewFromConfig(path string)]; the Go result (engine, error)
    is a sum, the code returns exactly one of the two. *)
Definition NewFromConfig (path : string) : Kubernetes + error :=
  match clientcmd_BuildConfigFromFlags out "" path with
  | inr err => inr err
  | inl config =>
      match kubernetes_NewForConfig out config with
      | inr err => inr err
      | inl clientset => inl {| client := clientset |}
      end
  end.

(** [func NewInCluster()] *)
Definition NewInCluster : Kubernetes + error :=
  match rest_InClusterConfig out with
  | inr err => inr err
  | inl config =>
      match kubernetes_NewForConfig out config with
      | inr err => inr err
      | inl clientset => inl {| client := clientset |}
      end
  end.

(** [func New()] *)
Definition New : Kubernetes + error :=
  match NewInCluster with
  | inl engine => inl engine
  | inr err =>
      let (dir, _) := os_UserHomeDir out in
      let dir := filepath_Join out [dir; ".kube"; "config"] in
      match NewFromConfig dir with
      | inl engine => inl engine
      | inr xerr => inr err
      end
  end.

End New.

Arguments rest_InClusterConfig {Config} o.
Arguments clientcmd_BuildConfigFromFlags {Config} o _ _.
Arguments kubernetes_NewForConfig {Config} o _.
Arguments os_UserHomeDir {Config} o.
Arguments filepath_Join {Config} o _.
Arguments NewFromConfig {Config} out path.
Arguments NewInCluster {Config} out.
Arguments New {Config} out.

End EngineNew.

(** ** Further readings of the event history *)

Module Discipline.
Import Go Engine.

(** Replays the events of [start] against the pod mutex; [held] tells
    whether the mutex is taken.  Reads and updates of the pod must happen
    under the mutex, pauses outside it, the mutex is never taken twice
    nor released when free, nothing else happens, and the mutex is free
    at the end. *)
Fixpoint disciplined (held : bool) (t : list Event) : bool :=
  match t with
  | [] => negb held
  | Lock :: rest => negb held && disciplined true rest
  | Unlock :: rest => held && disciplined false rest
  | PodsGet _ _ :: rest => held && disciplined held rest
  | PodsUpdate _ _ :: rest => held && disciplined held rest
  | Sleep _ :: rest => negb held && disciplined held rest
  | _ :: _ => false
  end.

(** The container is the one of the step. *)
Definition named_as_step (step : Step) (c : Container) : bool :=
  String.eqb (Container_Name c) (Step_ID step).

(** The annotations as a map, a nil map being empty. *)
Definition or_empty (annotations : option StringMap) : StringMap :=
  match annotations with None => [] | Some m => m end.

(** The pod [start] sends back after reading [pod]: the loop over the
    containers applied to it. *)
Definition swapped (statusesWhiteList : list string) (step : Step) (pod : Pod)
  : Pod :=
  let (containers, annotations) :=
    swap statusesWhiteList step (Pod_Containers pod) (Pod_Annotations pod) in
  {| Pod_Name := Pod_Name pod;
     Pod_Annotations := annotations;
     Pod_Containers := containers;
     Pod_ContainerStatuses := Pod_ContainerStatuses pod |}.

(** The API server never answers a pod read or write with the timeout
    sentinel of the wait package. *)
Definition never_times_out (k : Kubernetes) : Prop :=
  (forall h ns name, api_get (client k) h ns name <> inr ErrWaitTimeout) /\
  (forall h ev, api_write (client k) h ev <> Some ErrWaitTimeout).

(** The events [t] that followed the history [h] end with an attempt in
    which the pod was read and its update, carrying the step's image,
    was accepted by the API server. *)
Definition applied (statusesWhiteList : list string) (k : Kubernetes)
  (spec : Spec) (step : Step) (h t : list Event) : Prop :=
  exists t0 pod,
    t = t0 ++ [Lock;
               PodsGet (PodSpec_Namespace (Spec_PodSpec spec))
                       (PodSpec_Name (Spec_PodSpec spec));
               PodsUpdate (PodSpec_Namespace (Spec_PodSpec spec))
                          (swapped statusesWhiteList step pod);
               Unlock] /\
    api_get (client k) ((h ++ t0) ++ [Lock])
            (PodSpec_Namespace (Spec_PodSpec spec))
            (PodSpec_Name (Spec_PodSpec spec)) = inl pod /\
    api_write (client k)
              (((h ++ t0) ++ [Lock]) ++
               [PodsGet (PodSpec_Namespace (Spec_PodSpec spec))
                        (PodSpec_Name (Spec_PodSpec spec))])
              (PodsUpdate (PodSpec_Namespace (Spec_PodSpec spec))
                          (swapped statusesWhiteList step pod)) = None.

(** The watch events that concern the pod of the spec: additions and
    modifications of a pod of that name, and deletions. *)
Definition relevant (spec : Spec) (e : WatchEvent) : bool :=
  match e with
  | Added (Some pod) | Modified (Some pod) =>
      String.eqb (Pod_Name pod) (PodSpec_Name (Spec_PodSpec spec))
  | Deleted => true
  | _ => false
  end.

(** The feed without the events that do not concern the pod. *)
Definition concerning (spec : Spec) (feed : Feed) : Feed := {|
  Feed_synced := Feed_synced feed;
  Feed_store := Feed_store feed;
  Feed_events := filter (relevant spec) (Feed_events feed);
  Feed_closed := Feed_closed feed
|}.


(** A container status that satisfies the test of [waitForReady]. *)
Definition is_ready (image_Match : string -> string -> bool) (step : Step)
  (cs : ContainerStatus) : bool :=
  String.eqb (Status_Name cs) (Step_ID step) &&
  negb (image_Match (Status_Image cs) (Step_Placeholder step)) &&
  (State_Running (Status_State cs) || isSome (State_Terminated (Status_State cs))).

(** A container status that satisfies the test of [waitForTerminated]. *)
Definition is_terminated (image_Match : string -> string -> bool) (step : Step)
  (cs : ContainerStatus) : bool :=
  String.eqb (Status_Name cs) (Step_ID step) &&
  negb (image_Match (Status_Image cs) (Step_Placeholder step)) &&
  isSome (State_Terminated (Status_State cs)).

End Discipline.

(** ** Further scenarios *)

Module ExtraScenario.
Import Go Engine.

(** An API server that does not know the pod. *)
Definition pod_not_found : Kubernetes := {| client := {|
  api_write := fun _ _ => None;
  api_get := fun _ _ name => inr (StatusError StatusReasonNotFound name);
  api_log := fun _ _ _ _ => Copied None;
  api_watch := fun _ _ _ =>
    {| Feed_synced := true; Feed_store := StoreMissing;
       Feed_events := []; Feed_closed := false |}
|} |}.

(** An API server on which everything succeeds at once and the step has
    already terminated. *)
Definition smooth : Kubernetes := {| client := {|
  api_write := fun _ _ => None;
  api_get := fun _ _ _ => inl Scenario.pending_pod;
  api_log := fun _ _ _ _ => Copied None;
  api_watch := fun _ _ _ =>
    {| Feed_synced := true; Feed_store := StorePod Scenario.finished_pod;
       Feed_events := []; Feed_closed := false |}
|} |}.

End ExtraScenario.

Module RunnerReading.
Import Runner.

(** The step is not skipped by the loop of [run]: its run policy is not
    [RunNever]. *)
Definition runs (src : Runner.Step) : bool :=
  negb (RunPolicy_eqb (GetRunPolicy src) RunNever).

End RunnerReading.

Module RunnerExtraScenario.
Import Go Drone Runner.

(** Stage details with a configuration file that parses. *)
Definition valid_config : Context unit unit := {|
  Context_Build := {| Build_ID := 42; Build_Event := EventPush;
                      Build_Params := [] |};
  Context_Repo := {| Repo_ID := 1; Repo_Timeout := 60 |};
  Context_System := tt;
  Context_Config := "kind: pipeline";
  Context_Secrets := [];
  Context_Netrc := tt
|}.

(** A runner whose compiler yields three steps, the second of which never
    runs and the third of which ignores errors. *)
Definition three_steps : list Runner.Step :=
  [ {| GetName := "build"; GetRunPolicy := RunOnSuccess;
       GetErrPolicy := ErrFail |};
    {| GetName := "skipped"; GetRunPolicy := RunNever;
       GetErrPolicy := ErrFail |};
    {| GetName := "notify"; GetRunPolicy := RunAlways;
       GetErrPolicy := ErrIgnore |} ].

Definition compiling
  : Runner.Runner string string unit unit unit (list Runner.Step) := {|
  Machine := "runner-1";
  Environ := [];
  Client_Update := fun _ => None;
  Compiler_Compile := fun _ => three_steps;
  Reporter_ReportStage := fun _ => None;
  Exec := fun _ _ => None;
  Lint := fun _ _ => None;
  Match := None;
  Lookup := fun _ manifest => inl manifest
|}.

(** A runner that refuses every build. *)
Definition refusing
  : Runner.Runner string string unit unit unit (list Runner.Step) := {|
  Machine := "runner-1";
  Environ := [];
  Client_Update := fun _ => None;
  Compiler_Compile := fun _ => three_steps;
  Reporter_ReportStage := fun _ => None;
  Exec := fun _ _ => None;
  Lint := fun _ _ => None;
  Match := Some (fun _ _ => false);
  Lookup := fun _ manifest => inl manifest
|}.

End RunnerExtraScenario.

(* ===================================================================== *)
(** * Part II: properties                                                *)
(* ===================================================================== *)

(** ** The static secret provider *)

Module SecretSpec.
Import Drone Secret.

Section Find.

Variable EqualFold : string -> string -> bool.

Lemma Find_no_error secrets req : snd (Find EqualFold secrets req) = None.
Proof.
  induction secrets as [|s rest IH]; simpl; [reflexivity|].
  destruct (EqualFold (Secret_Name s) (Request_Name req)); simpl; auto.
  destruct (restricted s req); auto.
Qed.

(** [Find] returns the first entry that passes both tests of the loop. *)
Lemma Find_is_find secrets req :
  fst (Find EqualFold secrets req) =
  find (fun s => EqualFold (Secret_Name s) (Request_Name req)
                 && negb (restricted s req)) secrets.
Proof.
  induction secrets as [|s rest IH]; simpl; [reflexivity|].
  destruct (EqualFold (Secret_Name s) (Request_Name req)); simpl; auto.
  destruct (restricted s req); simpl; auto.
Qed.

Lemma restricted_false_iff s req :
  restricted s req = false <->
  ~ (Secret_PullRequest s = false /\
     Build_Event (Request_Build req) = EventPullRequest).
Proof.
  unfold restricted.
  destruct (Secret_PullRequest s); simpl.
  - split; [intros _ [H _]; discriminate | reflexivity].
  - destruct (String.eqb_spec (Build_Event (Request_Build req))
                              EventPullRequest) as [E|E].
    + split; [discriminate | intros H; exfalso; apply H; auto].
    + split; [intros _ [_ H]; contradiction | reflexivity].
Qed.

(** C3. [static.Find] never returns an error.  A secret it returns is an
    entry of the list whose name equals the requested name under
    [strings.EqualFold], and when the build event is pull_request that
    secret has [PullRequest = true]: an entry with [PullRequest = false]
    is never returned for a pull request, even when its name matches.  A
    secret is found exactly when some entry matches the name ignoring case
    and is not excluded by the pull-request restriction. *)
Theorem Find_case_insensitive_and_pull_request_restricted :
  forall (secrets : list Secret) (req : Request),
    snd (Find EqualFold secrets req) = None /\
    (forall s, fst (Find EqualFold secrets req) = Some s ->
       In s secrets /\
       EqualFold (Secret_Name s) (Request_Name req) = true /\
       (Build_Event (Request_Build req) = EventPullRequest ->
        Secret_PullRequest s = true)) /\
    ((exists s, fst (Find EqualFold secrets req) = Some s) <->
     (exists s, In s secrets /\
        EqualFold (Secret_Name s) (Request_Name req) = true /\
        ~ (Secret_PullRequest s = false /\
           Build_Event (Request_Build req) = EventPullRequest))).
Proof.
  intros secrets req. split; [apply Find_no_error|].
  rewrite Find_is_find. split.
  - intros s H. apply find_some in H. destruct H as [Hin Hb].
    apply andb_true_iff in Hb. destruct Hb as [Hn Hr].
    apply negb_true_iff in Hr.
    repeat split; auto.
    intros Hev. apply restricted_false_iff in Hr.
    destruct (Secret_PullRequest s); [reflexivity|].
    exfalso; apply Hr; auto.
  - split.
    + intros [s H]. apply find_some in H. destruct H as [Hin Hb].
      apply andb_true_iff in Hb. destruct Hb as [Hn Hr].
      apply negb_true_iff in Hr. apply restricted_false_iff in Hr.
      exists s; auto.
    + intros [s (Hin & Hn & Hr)].
      destruct (find _ secrets) as [s'|] eqn:F; [exists s'; reflexivity|].
      exfalso. apply (find_none _ _ F) in Hin.
      apply restricted_false_iff in Hr. rewrite Hn, Hr in Hin.
      discriminate.
Qed.

End Find.

(** Scenario 7 of the spec: a secret named token that is not enabled for
    pull requests is not found for TOKEN on a pull request, but is found
    on a push. *)
Example Find_token_pull_request :
  let token := {| Secret_Name := "token"; Secret_Data := "s3cr3t";
                  Secret_PullRequest := false |} in
  let repo := {| Repo_ID := 1; Repo_Timeout := 60 |} in
  let req event := {| Request_Name := "TOKEN";
                      Request_Build := {| Build_ID := 1; Build_Event := event;
                                          Build_Params := [] |};
                      Request_Repo := repo |} in
  Find EqualFoldAscii [token] (req EventPullRequest) = (None, None) /\
  Find EqualFoldAscii [token] (req EventPush) = (Some token, None).
Proof. split; reflexivity. Qed.

End SecretSpec.

(** ** The combined registry provider *)

Module RegistrySpec.
Import Drone Registry.

Section Combine.

Variable W : Type.

Lemma List_each_cons (source : Provider W) rest req w :
  List_each W (source :: rest) req w =
  (fst (fst (source req w)), snd (fst (source req w)), snd (source req w))
  :: List_each W rest req (snd (source req w)).
Proof. simpl. destruct (source req w) as [[l e] w']. reflexivity. Qed.

Lemma combined_List_cons (source : Provider W) rest req out w :
  combined_List W (source :: rest) req out w =
  match snd (fst (source req w)) with
  | Some e => (([], Some e), snd (source req w))
  | None => combined_List W rest req (out ++ fst (fst (source req w)))
                          (snd (source req w))
  end.
Proof. simpl. destruct (source req w) as [[l e] w']. reflexivity. Qed.

Lemma last_cons_default {A} (l : list A) : forall a d,
  last (a :: l) d = last l a.
Proof.
  induction l as [|b l IH]; intros a d; [reflexivity|].
  change (last (a :: b :: l) d) with (last (b :: l) d).
  rewrite (IH b d), (IH b a). reflexivity.
Qed.

Lemma combined_List_all_ok sources : forall req out w,
  (forall r, In r (List_each W sources req w) -> snd (fst r) = None) ->
  combined_List W sources req out w =
  ((out ++ concat (map (fun r => fst (fst r)) (List_each W sources req w)),
    None),
   last (map snd (List_each W sources req w)) w).
Proof.
  induction sources as [|source rest IH]; intros req out w Hok.
  - simpl. rewrite app_nil_r. reflexivity.
  - rewrite combined_List_cons. rewrite List_each_cons in Hok |- *.
    assert (Hhd : snd (fst (source req w)) = None).
    { apply (Hok (fst (fst (source req w)), snd (fst (source req w)),
                  snd (source req w))). left. reflexivity. }
    rewrite Hhd. rewrite IH.
    + cbn [map concat fst snd]. rewrite app_assoc, last_cons_default.
      reflexivity.
    + intros r Hr. apply Hok. right. exact Hr.
Qed.

Lemma combined_List_first_error sources : forall req out w before l e w' after,
  List_each W sources req w = before ++ (l, Some e, w') :: after ->
  (forall r, In r before -> snd (fst r) = None) ->
  combined_List W sources req out w = (([], Some e), w').
Proof.
  induction sources as [|source rest IH];
    intros req out w before l e w' after Heq Hok.
  - destruct before; discriminate.
  - rewrite combined_List_cons. rewrite List_each_cons in Heq.
    destruct before as [|b before].
    + simpl in Heq. injection Heq as H1 H2 H3 _. rewrite H2, H3. reflexivity.
    + simpl in Heq. injection Heq as Hb Hrest.
      assert (Hhd : snd (fst b) = None) by (apply Hok; left; reflexivity).
      rewrite <- Hb in Hhd. simpl in Hhd. rewrite Hhd.
      apply (IH _ _ _ before l e w' after Hrest).
      intros r Hr. apply Hok. right. exact Hr.
Qed.

(** C8. Let the providers' [List] be called in input order.  When none
    returns an error, [Combine(p1..pN).List] returns the concatenation of
    their results in that order, and no error.  When some provider returns
    an error, the combined [List] returns the error of the first such
    provider as it is, and the world is left as that provider left it: no
    later provider is called. *)
Theorem Combine_concatenates_or_returns_first_error :
  forall (sources : list (Provider W)) (req : Request) (w : W),
    ((forall r, In r (List_each W sources req w) -> snd (fst r) = None) ->
     Combine W sources req w =
     ((concat (map (fun r => fst (fst r)) (List_each W sources req w)), None),
      last (map snd (List_each W sources req w)) w)) /\
    (forall before l e w' after,
       List_each W sources req w = before ++ (l, Some e, w') :: after ->
       (forall r, In r before -> snd (fst r) = None) ->
       Combine W sources req w = (([], Some e), w')).
Proof.
  intros sources req w. unfold Combine. split.
  - intros Hok. rewrite combined_List_all_ok by exact Hok. reflexivity.
  - intros before l e w' after Heq Hok.
    eapply combined_List_first_error; eauto.
Qed.

End Combine.

(** P7 and scenario 6 of the spec, on the mock providers of the tests. *)
Example Combine_mock :
  let a := {| Registry_Address := "a"; Registry_Username := "";
              Registry_Password := "" |} in
  let b := {| Registry_Address := "b"; Registry_Username := "";
              Registry_Password := "" |} in
  let req := {| Request_Build := {| Build_ID := 1; Build_Event := EventPush;
                                    Build_Params := [] |};
                Request_Repo := {| Repo_ID := 1; Repo_Timeout := 60 |} |} in
  let e := Go.errorString "not found" in
  Combine unit [mockProvider unit [a] None; mockProvider unit [b] None] req tt
  = (([a; b], None), tt) /\
  Combine unit [mockProvider unit [] (Some e)] req tt = (([], Some e), tt) /\
  Combine unit [mockProvider unit [a] None; mockProvider unit [] (Some e);
                mockProvider unit [b] None] req tt = (([], Some e), tt).
Proof. repeat split; reflexivity. Qed.

End RegistrySpec.

(** ** The compiler helpers *)

Module CompilerSpec.
Import Engine Compiler.

Lemma contains_In set x : contains set x = true <-> In x set.
Proof.
  unfold contains. rewrite existsb_exists. split.
  - intros [y [Hin Heq]]. apply String.eqb_eq in Heq. subst. exact Hin.
  - intros Hin. exists x. split; [exact Hin | apply String.eqb_refl].
Qed.

(** C6. [isRunAlways] holds exactly when the include-set of the step's
    when.status contains both success and failure, [isRunOnFailure]
    exactly when it contains failure; both are false for an empty
    include-set. *)
Theorem run_policy_from_status_include :
  forall step : Resource.Step,
    let include := Resource.Include (Resource.Status (Resource.When step)) in
    (isRunAlways step = true <-> In "success" include /\ In "failure" include)
    /\ (isRunOnFailure step = true <-> In "failure" include)
    /\ (include = [] ->
        isRunAlways step = false /\ isRunOnFailure step = false).
Proof.
  intros step include. unfold isRunAlways, isRunOnFailure. fold include.
  repeat split.
  - apply contains_In. apply andb_true_iff in H. tauto.
  - apply contains_In. apply andb_true_iff in H. tauto.
  - intros [H1 H2]. apply andb_true_iff. split; apply contains_In; assumption.
  - apply contains_In.
  - apply contains_In.
  - rewrite H. reflexivity.
  - rewrite H. reflexivity.
Qed.

(** The cases of Test_isRunAlways and Test_isRunOnFailure. *)
Example run_policy_tests :
  let step include := {| Resource.Step_Name := "step";
    Resource.When := {| Resource.Status :=
      {| Resource.Include := include; Resource.Exclude := [] |} |} |} in
  isRunAlways (step []) = false /\
  isRunAlways (step ["success"]) = false /\
  isRunAlways (step ["failure"]) = false /\
  isRunAlways (step ["success"; "failure"]) = true /\
  isRunOnFailure (step []) = false /\
  isRunOnFailure (step ["success"]) = false /\
  isRunOnFailure (step ["failure"]) = true /\
  isRunOnFailure (step ["success"; "failure"]) = true.
Proof. repeat split; reflexivity. Qed.

End CompilerSpec.

Module SerialSpec.
Import Engine Compiler.

Lemma serial_length steps : forall prev,
  length (serial prev steps) = length steps.
Proof.
  induction steps as [|step rest IH]; intros prev; simpl; [reflexivity|].
  rewrite IH. reflexivity.
Qed.

Lemma serial_names steps : forall prev,
  map Step_Name (serial prev steps) = map Step_Name steps.
Proof.
  induction steps as [|step rest IH]; intros prev; simpl; [reflexivity|].
  rewrite IH. destruct prev; reflexivity.
Qed.

(** What the loop leaves at each index: the step itself, depending on
    the name of the step visited before it. *)
Lemma serial_nth_error steps : forall prev i s,
  nth_error steps i = Some s ->
  nth_error (serial prev steps) i =
  Some (match i with
        | O => match prev with
               | Some p => set_DependsOn s [Step_Name p]
               | None => s
               end
        | S j => match nth_error steps j with
                 | Some p => set_DependsOn s [Step_Name p]
                 | None => s
                 end
        end).
Proof.
  induction steps as [|step rest IH]; intros prev i s Hnth.
  - destruct i; discriminate.
  - destruct i as [|i]; simpl in Hnth |- *.
    + injection Hnth as ->. reflexivity.
    + rewrite (IH _ i s Hnth). destruct i as [|j]; simpl.
      * destruct prev; reflexivity.
      * reflexivity.
Qed.

(** C9. When no step of the spec declares depends_on, [configureSerial]
    keeps the steps, their order and their names, leaves the first step
    as it is (without dependencies), and makes every later step depend on
    exactly the name of the step just before it. *)
Theorem configureSerial_chains_each_step_to_predecessor :
  forall spec : Spec,
    (forall s, In s (Spec_Steps spec) -> Step_DependsOn s = []) ->
    let steps := Spec_Steps spec in
    let steps' := Spec_Steps (configureSerial spec) in
    length steps' = length steps /\
    map Step_Name steps' = map Step_Name steps /\
    (forall first, nth_error steps 0 = Some first ->
       nth_error steps' 0 = Some first /\ Step_DependsOn first = []) /\
    (forall i prev s,
       nth_error steps i = Some prev ->
       nth_error steps (S i) = Some s ->
       nth_error steps' (S i) = Some (set_DependsOn s [Step_Name prev]) /\
       Step_DependsOn (set_DependsOn s [Step_Name prev]) = [Step_Name prev]).
Proof.
  intros spec Hnone steps steps'. subst steps steps'.
  unfold configureSerial. cbn [Spec_Steps].
  split; [apply serial_length|].
  split; [apply serial_names|].
  split.
  - intros first Hfirst. split.
    + rewrite (serial_nth_error _ None 0 first Hfirst). reflexivity.
    + apply Hnone. eapply nth_error_In. exact Hfirst.
  - intros i prev s Hprev Hs. split; [|reflexivity].
    rewrite (serial_nth_error _ None (S i) s Hs). rewrite Hprev. reflexivity.
Qed.

(** Scenario 1 of the spec, through the theorem: build, test, deploy. *)
Lemma configureSerial_build_test_deploy :
  (forall s, In s (Spec_Steps Scenario.build_test_deploy) ->
     Step_DependsOn s = []) /\
  nth_error (Spec_Steps (configureSerial Scenario.build_test_deploy)) 1 =
    Some (Scenario.named "test" ["build"]) /\
  nth_error (Spec_Steps (configureSerial Scenario.build_test_deploy)) 2 =
    Some (Scenario.named "deploy" ["test"]).
Proof.
  assert (H : forall s, In s (Spec_Steps Scenario.build_test_deploy) ->
                        Step_DependsOn s = []).
  { simpl. intros s [E|[E|[E|[]]]]; subst s; reflexivity. }
  split; [exact H|].
  destruct (configureSerial_chains_each_step_to_predecessor
              Scenario.build_test_deploy H) as (_ & _ & _ & Hchain).
  split.
  - exact (proj1 (Hchain 0 (Scenario.named "build" [])
                         (Scenario.named "test" []) eq_refl eq_refl)).
  - exact (proj1 (Hchain 1 (Scenario.named "test" [])
                         (Scenario.named "deploy" []) eq_refl eq_refl)).
Defined.

(** Test_configureSerial. *)
Example configureSerial_test :
  Spec_Steps (configureSerial Scenario.build_test_deploy) =
  [Scenario.named "build" []; Scenario.named "test" ["build"];
   Scenario.named "deploy" ["test"]].
Proof. reflexivity. Qed.

End SerialSpec.

(** ** Setup and Destroy *)

Module LifecycleSpec.
Import Go Engine Lifecycle.

Lemma Setup_until_error k spec h :
  Setup k spec h = until_error k (Setup_plan spec) h.
Proof.
  unfold Setup, Setup_plan.
  destruct (String.eqb (Spec_Namespace spec) ""); simpl;
    destruct (Spec_PullSecret spec); simpl;
    unfold bind, write, ret; simpl;
    repeat lazymatch goal with
           | |- context [match api_write ?c ?h ?e with _ => _ end] =>
               destruct (api_write c h e); try reflexivity
           end.
Qed.

Lemma until_error_all_ok k calls : forall h,
  (forall a, In a (answers k h calls) -> a = None) ->
  until_error k calls h = (None, h ++ calls).
Proof.
  induction calls as [|c rest IH]; intros h Hok; simpl.
  - unfold ret. rewrite app_nil_r. reflexivity.
  - unfold bind, write. simpl in Hok.
    rewrite (Hok (api_write (client k) h c)) by (left; reflexivity).
    rewrite IH by (intros a Ha; apply Hok; right; exact Ha).
    rewrite <- app_assoc. reflexivity.
Qed.

Lemma until_error_first_error k calls : forall h n e,
  nth_error (answers k h calls) n = Some (Some e) ->
  (forall i, i < n -> nth_error (answers k h calls) i = Some None) ->
  until_error k calls h = (Some e, h ++ firstn (S n) calls).
Proof.
  induction calls as [|c rest IH]; intros h n e Hn Hbefore.
  - destruct n; discriminate.
  - simpl. unfold bind, write. destruct n as [|n].
    + simpl in Hn. injection Hn as ->. reflexivity.
    + simpl in Hn. pose proof (Hbefore 0 (Nat.lt_0_succ n)) as H0.
      simpl in H0. injection H0 as ->.
      rewrite (IH _ n e Hn).
      * rewrite <- app_assoc. reflexivity.
      * intros i Hi. apply (Hbefore (S i)). lia.
Qed.

(** C5. [Setup] issues the creations in the order namespace (only when
    the spec's Namespace is not empty), pull secret (only when present),
    generic secret, pod.  When every creation succeeds it returns no
    error and has issued all of them; when the creation at position [n]
    is the first to fail, with error [e], it returns [e] and has issued
    exactly the creations up to and including that one. *)
Theorem Setup_creates_in_order_and_stops_at_first_error :
  forall (k : Kubernetes) (spec : Spec) (h : list Event),
    ((forall a, In a (answers k h (Setup_plan spec)) -> a = None) ->
     Setup k spec h = (None, h ++ Setup_plan spec)) /\
    (forall n e,
       nth_error (answers k h (Setup_plan spec)) n = Some (Some e) ->
       (forall i, i < n ->
          nth_error (answers k h (Setup_plan spec)) i = Some None) ->
       Setup k spec h = (Some e, h ++ firstn (S n) (Setup_plan spec))).
Proof.
  intros k spec h. rewrite Setup_until_error. split.
  - apply until_error_all_ok.
  - apply until_error_first_error.
Qed.

(** A run in which the generic secret cannot be created: the namespace
    and the pull secret were created, the pod is never submitted. *)
Example Setup_stops_at_failed_secret :
  let spec := {| Spec_PodSpec := {| PodSpec_Name := "pod";
                                    PodSpec_Namespace := "ns";
                                    PodSpec_Labels := [] |};
                 Spec_PullSecret := Some {| PullSecret_Name := "pull";
                                            PullSecret_Data := "" |};
                 Spec_Namespace := "ns";
                 Spec_Steps := [] |} in
  let exists_already := StatusError StatusReasonAlreadyExists "pod" in
  let k := {| client := {|
      api_write := fun _ e =>
        match e with
        | SecretsCreate _ (toSecret _) => Some exists_already
        | _ => None
        end;
      api_get := fun _ _ _ => inr (errorString "unused");
      api_log := fun _ _ _ _ => Copied None;
      api_watch := fun _ _ _ =>
        {| Feed_synced := false; Feed_store := StoreMissing;
           Feed_events := []; Feed_closed := true |} |} |} in
  Setup k spec [] =
  (Some exists_already,
   [NamespacesCreate (toNamespace "ns" []);
    SecretsCreate "ns" (toDockerConfigSecret spec);
    SecretsCreate "ns" (toSecret spec)]).
Proof. reflexivity. Qed.

(** C4. After its 5 s pause [Destroy] issues every deletion (pull secret
    when present, generic secret, pod, namespace when the spec's Namespace
    is not empty) whatever the API server answers to the earlier ones,
    and returns the errors of all failed deletions, in order, nil when
    there is none.  The deletions address as many namespaces, secrets and
    pods as the creations of [Setup] do. *)
Theorem Destroy_attempts_every_deletion_and_accumulates_errors :
  forall (k : Kubernetes) (spec : Spec) (h : list Event),
    Destroy k spec h =
    (match failures (answers k (h ++ [After (Second * 5)])
                             (Destroy_plan spec)) with
     | [] => None
     | errs => Some errs
     end,
     h ++ After (Second * 5) :: Destroy_plan spec) /\
    (forall kd, count kd (Destroy_plan spec) = count kd (Setup_plan spec)).
Proof.
  intros k spec h. split.
  - unfold Destroy, Destroy_plan, time_After, emit, bind, write, ret,
      multierror_Append.
    destruct (Spec_PullSecret spec) as [pull|];
      destruct (String.eqb (Spec_Namespace spec) ""); cbn - [Z.mul];
      repeat lazymatch goal with
             | |- context [match api_write ?c ?h ?e with _ => _ end] =>
                 destruct (api_write c h e)
             end;
      cbn - [Z.mul]; repeat rewrite <- app_assoc; reflexivity.
  - intros kd. unfold Destroy_plan, Setup_plan, count.
    destruct (Spec_PullSecret spec) as [pull|];
      destruct (String.eqb (Spec_Namespace spec) "");
      destruct kd; reflexivity.
Qed.

(** A run in which the first two deletions fail: all four are still
    attempted and both errors are returned. *)
Example Destroy_after_failures :
  let spec := {| Spec_PodSpec := {| PodSpec_Name := "pod";
                                    PodSpec_Namespace := "ns";
                                    PodSpec_Labels := [] |};
                 Spec_PullSecret := Some {| PullSecret_Name := "pull";
                                            PullSecret_Data := "" |};
                 Spec_Namespace := "ns";
                 Spec_Steps := [] |} in
  let k := {| client := {|
      api_write := fun _ e =>
        match e with
        | SecretsDelete _ name => Some (StatusError StatusReasonNotFound name)
        | _ => None
        end;
      api_get := fun _ _ _ => inr (errorString "unused");
      api_log := fun _ _ _ _ => Copied None;
      api_watch := fun _ _ _ =>
        {| Feed_synced := false; Feed_store := StoreMissing;
           Feed_events := []; Feed_closed := true |} |} |} in
  Destroy k spec [] =
  (Some [StatusError StatusReasonNotFound "pull";
         StatusError StatusReasonNotFound "pod"],
   [After 5000000000; SecretsDelete "ns" "pull"; SecretsDelete "ns" "pod";
    PodsDelete "ns" "pod"; NamespacesDelete "ns"]).
Proof. reflexivity. Qed.

End LifecycleSpec.

(** ** Running a step *)

Module RunSpec.
Import Go Engine.

Import Observe.

Section Terminated.

Variable statusesWhiteList : list string.
Variable image_Match : string -> string -> bool.
Variable host : Host.
Variable k : Kubernetes.
Variable spec : Spec.
Variable step : Step.

Lemma terminated_spec statuses : forall state done err state',
  terminated image_Match step statuses state = ((done, err), state') ->
  err = None /\
  Exited state' = Exited state /\
  OOMKilled state' = OOMKilled state /\
  (done = true ->
   exists cs t,
     In cs statuses /\
     Status_Name cs = Step_ID step /\
     State_Terminated (Status_State cs) = Some t /\
     image_Match (Status_Image cs) (Step_Placeholder step) = false /\
     ExitCode state' = Terminated_ExitCode t).
Proof.
  induction statuses as [|cs rest IH]; intros state done err state' H;
    simpl in H.
  - injection H as <- <- <-. repeat split; auto. discriminate.
  - assert (Hrest : terminated image_Match step rest state
                    = ((done, err), state') ->
                    err = None /\ Exited state' = Exited state /\
                    OOMKilled state' = OOMKilled state /\
                    (done = true ->
                     exists cs0 t,
                       In cs0 (cs :: rest) /\
                       Status_Name cs0 = Step_ID step /\
                       State_Terminated (Status_State cs0) = Some t /\
                       image_Match (Status_Image cs0) (Step_Placeholder step)
                       = false /\
                       ExitCode state' = Terminated_ExitCode t)).
    { intros H'. destruct (IH _ _ _ _ H') as (E1 & E2 & E3 & E4).
      repeat split; auto. intros Hd.
      destruct (E4 Hd) as (cs0 & t & Hin & Hrest).
      exists cs0, t. split; [right; exact Hin | exact Hrest]. }
    destruct (String.eqb_spec (Status_Name cs) (Step_ID step)) as [Hname|Hname];
      simpl in H; [|auto].
    destruct (image_Match (Status_Image cs) (Step_Placeholder step)) eqn:Him;
      simpl in H; [auto|].
    destruct (State_Terminated (Status_State cs)) as [t|] eqn:Ht; [|auto].
    injection H as <- <- <-. simpl. repeat split; auto.
    intros _. exists cs, t. repeat split; auto.
Qed.

(** A state invariant carried through the event loop of the watch. *)
Lemma UntilWithoutRetry_done {St : Type} (P Q : St -> Prop)
  (condition : WatchEvent -> St -> (bool * option error) * St)
  (events : list WatchEvent) (closed : bool) :
  (forall e s done s', In e events -> P s ->
     condition e s = ((done, None), s') ->
     P s' /\ (done = true -> Q s')) ->
  forall s s', P s ->
    UntilWithoutRetry events closed condition s = (None, s') ->
    P s' /\ Q s'.
Proof.
  induction events as [|e rest IH]; intros Hc s s' HP H; simpl in H.
  - destruct closed; discriminate.
  - destruct (condition e s) as [[done err] s1] eqn:E.
    destruct err as [e'|]; [discriminate|].
    destruct (Hc e s done s1 (or_introl eq_refl) HP E) as [HP1 HQ1].
    destruct done.
    + injection H as <-. auto.
    + apply (IH (fun e0 s0 d0 s0' Hin => Hc e0 s0 d0 s0' (or_intror Hin))
                s1 s' HP1 H).
Qed.

(** [waitForTerminated] returns a state only with [Exited = true] and
    [OOMKilled = false], and its exit code comes from the watch. *)
Lemma waitForTerminated_state h st err h' :
  waitForTerminated image_Match k spec step h = ((Some st, err), h') ->
  err = None /\
  Exited st = true /\ OOMKilled st = false /\
  exists h0 ns label,
    h' = h0 ++ [PodsWatch ns label] /\
    captured image_Match step (api_watch (client k) h0 ns label) st.
Proof.
  unfold waitForTerminated, bind, waitFor, ret, UntilWithSync.
  set (feed := api_watch (client k) h _ _).
  set (P := fun s : State => Exited s = true /\ OOMKilled s = false).
  intros H.
  enough (Hgoal : err = None /\ P st /\ captured image_Match step feed st /\
                  h' = h ++ [PodsWatch (PodSpec_Namespace (Spec_PodSpec spec))
                               (String.append "io.drone.name="
                                  (PodSpec_Name (Spec_PodSpec spec)))]).
  { destruct Hgoal as (E & [P1 P2] & Hc & Hh). repeat split; auto.
    exists h, (PodSpec_Namespace (Spec_PodSpec spec)),
      (String.append "io.drone.name=" (PodSpec_Name (Spec_PodSpec spec))).
    split; [exact Hh | exact Hc]. }
  destruct (Feed_synced feed) eqn:Hsync; simpl in H; [|discriminate].
  destruct (Feed_store feed) as [e| | |pod] eqn:Hstore; simpl in H;
    try discriminate.
  destruct (terminated image_Match step (Pod_ContainerStatuses pod) _)
    as [[done err0] s1] eqn:Hpre.
  destruct (terminated_spec _ _ _ _ _ Hpre) as (-> & Hex & Hoom & Hdone).
  simpl in Hex, Hoom. destruct done.
  - simpl in H. injection H as <- <- <-. repeat split; auto.
    destruct (Hdone eq_refl) as (cs & t & Hin & Hrest).
    exists pod, cs, t. split; [left; exact Hstore | split; assumption].
  - destruct (UntilWithoutRetry _ _ _ s1) as [err1 s2] eqn:Hloop.
    destruct err1 as [e1|]; simpl in H; [discriminate|].
    injection H as <- <- <-.
    match type of Hloop with
    | UntilWithoutRetry _ _ ?c _ = _ => set (handler := c) in Hloop
    end.
    assert (Hpod : forall pod' s done s',
              Observe.observes feed pod' -> P s ->
              terminated image_Match step (Pod_ContainerStatuses pod') s
              = ((done, None), s') ->
              P s' /\ (done = true -> captured image_Match step feed s')).
    { intros pod' s done s' Hobs [HP1 HP2] Hc.
      destruct (terminated_spec _ _ _ _ _ Hc) as (_ & E2 & E3 & E4).
      split; [split; congruence|].
      intros Hd. destruct (E4 Hd) as (cs & t & Hin & Hrest).
      exists pod', cs, t. split; [exact Hobs | split; assumption]. }
    assert (Hcond : forall e s done s',
              In e (Feed_events feed) -> P s ->
              handler e s = ((done, None), s') ->
              P s' /\ (done = true -> captured image_Match step feed s')).
    { intros e s done s' Hin HPs Hc. unfold handler in Hc.
      destruct e as [[pod'|]|[pod'|]| | |];
        try (injection Hc as <- <-; split; [exact HPs | discriminate]);
        try discriminate.
      - destruct (negb (String.eqb (Pod_Name pod')
                                   (PodSpec_Name (Spec_PodSpec spec)))).
        + injection Hc as <- <-; split; [exact HPs | discriminate].
        + apply (Hpod pod' s done s'); auto. right; left; exact Hin.
      - destruct (negb (String.eqb (Pod_Name pod')
                                   (PodSpec_Name (Spec_PodSpec spec)))).
        + injection Hc as <- <-; split; [exact HPs | discriminate].
        + apply (Hpod pod' s done s'); auto. right; right; exact Hin. }
    destruct (UntilWithoutRetry_done P (captured image_Match step feed) handler _ _ Hcond
                s1 s2 (conj Hex Hoom) Hloop) as [HP HQ].
    repeat split; auto; apply HP.
Qed.

(** C10. Whenever [Run] returns a non-nil state, it returns no error and
    the state has [Exited = true] and [OOMKilled = false]; the only value
    taken from the cluster is the exit code, read from a terminated
    container status of the step that the last watch showed. *)
Theorem Run_state_exited_never_oom_killed :
  forall (h : list Event) (st : State) (err : option error) (h' : list Event),
    Run statusesWhiteList image_Match host k spec step h
    = (Some (Some st, err), h') ->
    err = None /\
    Exited st = true /\ OOMKilled st = false /\
    exists h0 ns label,
      h' = h0 ++ [PodsWatch ns label] /\
      captured image_Match step (api_watch (client k) h0 ns label) st.
Proof.
  intros h st err h'. unfold Run, bind, ret.
  destruct (start statusesWhiteList host k spec step h) as [[[e|]|] h1];
    try discriminate.
  destruct (waitForReady image_Match k spec step h1) as [[e|] h2];
    try discriminate.
  destruct (tail k spec step h2) as [[e|] h3].
  - destruct (getenv host _ h3) as [flag h4].
    destruct (String.eqb flag "true").
    + destruct (time_After _ h4) as [[] h5].
      destruct (tail k spec step h5) as [[e1|] h6].
      * destruct (time_After _ h6) as [[] h7].
        destruct (tail k spec step h7) as [[e2|] h8]; try discriminate.
        destruct (waitForTerminated image_Match k spec step h8)
          as [[st' err'] h9] eqn:W.
        intros H. injection H as -> -> ->.
        apply (waitForTerminated_state _ _ _ _ W).
      * destruct (waitForTerminated image_Match k spec step h6)
          as [[st' err'] h9] eqn:W.
        intros H. injection H as -> -> ->.
        apply (waitForTerminated_state _ _ _ _ W).
    + destruct (time_After _ h4) as [[] h5].
      destruct (tail k spec step h5) as [[e1|] h6]; try discriminate.
      destruct (waitForTerminated image_Match k spec step h6)
        as [[st' err'] h9] eqn:W.
      intros H. injection H as -> -> ->.
      apply (waitForTerminated_state _ _ _ _ W).
  - destruct (waitForTerminated image_Match k spec step h3)
      as [[st' err'] h9] eqn:W.
    intros H. injection H as -> -> ->.
    apply (waitForTerminated_state _ _ _ _ W).
Qed.

End Terminated.

(** The theorem at a run that ends with exit code 3. *)
Lemma Run_state_exited_never_oom_killed_at_exit_3 :
  Run Scenario.whitelist String.eqb Scenario.flag_set Scenario.conflict_once
      Scenario.one_step Scenario.build_step []
  = (Some (Some {| ExitCode := 3; Exited := true; OOMKilled := false |}, None),
     snd (Run Scenario.whitelist String.eqb Scenario.flag_set
              Scenario.conflict_once Scenario.one_step Scenario.build_step []))
  /\
  (Exited {| ExitCode := 3; Exited := true; OOMKilled := false |} = true /\
   OOMKilled {| ExitCode := 3; Exited := true; OOMKilled := false |} = false).
Proof.
  split; [vm_compute; reflexivity|].
  destruct (Run_state_exited_never_oom_killed
              Scenario.whitelist String.eqb Scenario.flag_set
              Scenario.conflict_once Scenario.one_step Scenario.build_step
              [] {| ExitCode := 3; Exited := true; OOMKilled := false |} None
              (snd (Run Scenario.whitelist String.eqb Scenario.flag_set
                        Scenario.conflict_once Scenario.one_step
                        Scenario.build_step []))
              ltac:(vm_compute; reflexivity)) as (_ & E & O & _).
  split; [exact E | exact O].
Defined.

(** *** The retry loop of start *)

Lemma attempts_app a b : attempts (a ++ b) = attempts a + attempts b.
Proof.
  induction a as [|e a IH]; [reflexivity|].
  destruct e; simpl; rewrite IH; reflexivity.
Qed.

Lemma pauses_app a b : pauses (a ++ b) = pauses a ++ pauses b.
Proof.
  induction a as [|e a IH]; [reflexivity|].
  destruct e; simpl; rewrite IH; reflexivity.
Qed.

Lemma tails_app a b : tails (a ++ b) = tails a + tails b.
Proof.
  induction a as [|e a IH]; [reflexivity|].
  destruct e; simpl; rewrite IH; reflexivity.
Qed.

(** The jitter of a 500 ms pause with factor 0.5 adds at most 250 ms. *)
Lemma jitter_range (r : Q) :
  (0 <= r)%Q -> (r < 1)%Q ->
  (500000000 <=
   500000000 + Qtrunc (r * (1 # 2) * inject_Z 500000000) <= 750000000)%Z.
Proof.
  destruct r as [p q]. unfold Qle, Qlt, Qtrunc. simpl Qnum. simpl Qden.
  intros H0 H1.
  assert (Hp : (0 <= p)%Z) by lia.
  assert (Hq : (p < Z.pos q)%Z) by lia.
  rewrite Z.quot_div_nonneg by lia.
  replace (Z.pos (q * 2 * 1)) with (Z.pos q * 2)%Z by lia.
  assert (Hlo : (0 <= p * 1 * 500000000 / (Z.pos q * 2))%Z).
  { apply Z.div_pos; lia. }
  assert (Hhi : (p * 1 * 500000000 / (Z.pos q * 2) <= 250000000)%Z).
  { apply Z.div_le_upper_bound; lia. }
  lia.
Qed.

Section Start.

Variable statusesWhiteList : list string.
Variable host : Host.
Variable k : Kubernetes.
Variable spec : Spec.
Variable step : Step.

(** One attempt: it takes the mutex once, never pauses, and its error is
    an answer of the API server. *)
Lemma start_attempt_spec h :
  exists t,
    snd (start_attempt statusesWhiteList k spec step h) = h ++ t /\
    attempts t = 1 /\ pauses t = [] /\ tails t = 0 /\
    (never_conflicts k ->
     match fst (start_attempt statusesWhiteList k spec step h) with
     | Some e => IsConflict e = false
     | None => True
     end) /\
    (always_conflicts k ->
     exists e, fst (start_attempt statusesWhiteList k spec step h) = Some e /\
               IsConflict e = true).
Proof.
  unfold start_attempt, bind, emit, write, ret.
  destruct (api_get (client k) (h ++ [Lock]) _ _) as [pod|e] eqn:Hget.
  - destruct (swap statusesWhiteList step (Pod_Containers pod)
                   (Pod_Annotations pod)) as [containers annotations].
    match goal with
    | |- context [api_write (client k) ?h' ?ev] =>
        destruct (api_write (client k) h' ev) as [e|] eqn:Hw;
        exists [Lock; PodsGet (PodSpec_Namespace (Spec_PodSpec spec))
                              (PodSpec_Name (Spec_PodSpec spec)); ev; Unlock]
    end; simpl; repeat rewrite <- app_assoc; simpl;
      (split; [reflexivity|]); repeat split; auto.
    + intros [_ Hnw]. eapply Hnw; eauto.
    + intros [_ Hall].
      match type of Hw with
      | api_write _ ?h' ?ev = _ => destruct (Hall h' ev) as (e' & He' & Hc)
      end.
      rewrite He' in Hw. injection Hw as ->. eauto.
    + intros [_ Hall].
      match type of Hw with
      | api_write _ ?h' ?ev = _ => destruct (Hall h' ev) as (e' & He' & Hc)
      end.
      rewrite He' in Hw. discriminate.
  - exists [Lock; PodsGet (PodSpec_Namespace (Spec_PodSpec spec))
                          (PodSpec_Name (Spec_PodSpec spec)); Unlock].
    simpl; repeat rewrite <- app_assoc; simpl.
    split; [reflexivity|]. repeat split; auto.
    + intros [Hng _]. eapply Hng; eauto.
    + intros [Hall _]. destruct (Hall (h ++ [Lock])
                                   (PodSpec_Namespace (Spec_PodSpec spec))
                                   (PodSpec_Name (Spec_PodSpec spec)))
        as [pod Hpod].
      rewrite Hpod in Hget. discriminate.
Qed.

(** [Step] on the backoff of [start]: one step less, and a pause between
    500 ms and 750 ms. *)
Lemma Backoff_Step_remaining n h :
  (1 <= n)%Z ->
  exists d,
    Backoff_Step host (remaining n) h = ((d, remaining (n - 1)), h) /\
    (unit_interval host -> (500000000 <= d <= 750000000)%Z).
Proof.
  intros Hn. unfold Backoff_Step, remaining.
  cbn [Backoff_Steps Backoff_Duration Backoff_Factor Backoff_Jitter Backoff_Cap].
  replace (n <? 1)%Z with false by (symmetry; apply Z.ltb_ge; lia).
  change (500 * Millisecond)%Z with 500000000%Z.
  exists (500000000 + Qtrunc (rand_Float64 host h * (1 # 2)
                              * inject_Z 500000000))%Z.
  split; [reflexivity|].
  intros Hunit. apply jitter_range; apply Hunit.
Qed.

(** The loop of [wait.ExponentialBackoff] under [retry.OnError], from
    [n] remaining steps. *)
Lemma retry_loop_spec : forall fuel n last h,
  (1 <= n)%Z -> Z.to_nat n <= fuel ->
  exists err last' t,
    ExponentialBackoff fuel host (remaining n)
      (fun lastErr : option error =>
         bind (start_attempt statusesWhiteList k spec step) (fun err =>
           match err with
           | None => ret ((true, None), lastErr)
           | Some e => if IsConflict e then ret ((false, None), Some e)
                       else ret ((false, Some e), lastErr)
           end)) last h
    = (Some (err, last'), h ++ t) /\
    1 <= attempts t <= Z.to_nat n /\
    length (pauses t) = attempts t - 1 /\
    (unit_interval host ->
     forall d, In d (pauses t) -> (500000000 <= d <= 750000000)%Z) /\
    tails t = 0 /\
    (never_conflicts k -> attempts t = 1) /\
    (always_conflicts k ->
     attempts t = Z.to_nat n /\ err = Some ErrWaitTimeout /\
     exists e, last' = Some e /\ IsConflict e = true).
Proof.
  induction fuel as [|fuel IH]; intros n last h Hn Hfuel; [lia|].
  cbn [ExponentialBackoff]. unfold remaining at 1. cbn [Backoff_Steps].
  replace (n >? 0)%Z with true by (symmetry; apply Z.gtb_lt; lia).
  destruct (start_attempt_spec h) as (ta & Hsnd & Ha & Hp & Ht & Hnc & Hac).
  unfold bind at 1. unfold bind at 1.
  destruct (start_attempt statusesWhiteList k spec step h) as [r h1].
  simpl in Hsnd, Hnc, Hac. subst h1.
  destruct r as [e|].
  - destruct (IsConflict e) eqn:C.
    + unfold ret at 1. cbn [isSome orb].
      unfold remaining at 1. cbn [Backoff_Steps].
      destruct (n =? 1)%Z eqn:N1.
      * apply Z.eqb_eq in N1. subst n.
        exists (Some ErrWaitTimeout), (Some e), ta. unfold ret.
        split; [reflexivity|]. rewrite Ha, Hp, Ht.
        split; [simpl; lia|]. split; [reflexivity|].
        split; [intros _ d0 []|]. split; [reflexivity|].
        split; [reflexivity|].
        intros _. split; [reflexivity|]. split; [reflexivity|].
        exists e; auto.
      * apply Z.eqb_neq in N1.
        destruct (Backoff_Step_remaining n (h ++ ta) Hn) as (d & Hstep & Hd).
        unfold bind at 1. rewrite Hstep.
        unfold bind at 1. unfold time_Sleep, emit. cbn [fst snd].
        destruct (IH (n - 1)%Z (Some e) ((h ++ ta) ++ [Sleep d]))
          as (err & last' & t & Hrun & Hat & Hlen & Hrange & Htl & Hnv & Hal);
          [lia | lia |].
        exists err, last', (ta ++ [Sleep d] ++ t).
        split; [rewrite Hrun; repeat rewrite <- app_assoc; reflexivity|].
        rewrite !attempts_app, !pauses_app, !tails_app. rewrite Ha, Hp, Ht.
        cbn [attempts pauses tails app length Nat.add].
        split; [lia|]. split; [lia|].
        split; [intros Hunit d' [<-|Hin];
                [exact (Hd Hunit) | apply (Hrange Hunit); exact Hin]|].
        split; [exact Htl|].
        split; [intros Hnever; specialize (Hnc Hnever); congruence|].
        intros Halways. destruct (Hal Halways) as (E1 & E2 & E3).
        split; [lia|]. split; assumption.
    + exists (Some e), last, ta. unfold ret. cbn [isSome orb].
      split; [reflexivity|]. rewrite Ha, Hp, Ht.
      split; [lia|]. split; [reflexivity|].
      split; [intros _ d0 []|]. split; [reflexivity|].
      split; [reflexivity|].
      intros Halways. destruct (Hac Halways) as (e' & He' & Hc').
      congruence.
  - exists None, last, ta. unfold ret. cbn [isSome orb].
    split; [reflexivity|]. rewrite Ha, Hp, Ht.
    split; [lia|]. split; [reflexivity|].
    split; [intros _ d0 []|]. split; [reflexivity|].
    split; [reflexivity|].
    intros Halways. destruct (Hac Halways) as (e' & He' & Hc').
    discriminate.
Qed.

(** [start] always returns, and requests no logs. *)
Lemma start_total h :
  exists err t,
    start statusesWhiteList host k spec step h = (Some err, h ++ t) /\
    tails t = 0.
Proof.
  unfold start, RetryOnConflict, OnError.
  change backoff with (remaining 15).
  change (Backoff_Steps (remaining 15)) with 15%Z.
  destruct (retry_loop_spec (S (Z.to_nat 15)) 15 None h)
    as (err & last' & t & Hrun & _ & _ & _ & Htl & _); [lia | lia |].
  unfold bind at 1. rewrite Hrun.
  exists (if isErrWaitTimeout err then last' else err), t.
  split; [reflexivity | exact Htl].
Qed.

(** C2, as amended. [start] always returns.  It makes at least one and at
    most 15 read-modify-write attempts and pauses once between two
    consecutive attempts.  With random draws in the unit interval, every
    pause lasts between 500 ms and 750 ms: the base of 500 ms plus a
    jitter of at most one half of it, the same range for every pause
    (the factor is 1.0, the delay does not grow).  When the API server
    never answers with a conflict there is exactly one attempt; when it
    answers every update with a conflict there are exactly 15 and [start]
    returns a conflict error. *)
Theorem start_retries_conflicts_within_15_attempts_at_constant_delay :
  forall h : list Event,
  exists (err : option error) (t : list Event),
    start statusesWhiteList host k spec step h = (Some err, h ++ t) /\
    1 <= attempts t <= 15 /\
    length (pauses t) = attempts t - 1 /\
    (unit_interval host ->
     forall d, In d (pauses t) ->
       (500 * Millisecond <= d <= 750 * Millisecond)%Z) /\
    (never_conflicts k -> attempts t = 1) /\
    (always_conflicts k ->
     attempts t = 15 /\ exists e, err = Some e /\ IsConflict e = true).
Proof.
  intros h. unfold start, RetryOnConflict, OnError.
  change backoff with (remaining 15).
  change (Backoff_Steps (remaining 15)) with 15%Z.
  destruct (retry_loop_spec (S (Z.to_nat 15)) 15 None h)
    as (err & last' & t & Hrun & Hat & Hlen & Hrange & _ & Hnv & Hal);
    [lia | lia |].
  unfold bind at 1. rewrite Hrun.
  exists (if isErrWaitTimeout err then last' else err), t.
  split; [reflexivity|].
  split; [exact Hat|]. split; [exact Hlen|].
  split; [exact Hrange|]. split; [exact Hnv|].
  intros Halways. destruct (Hal Halways) as (E1 & -> & e & -> & Hc).
  split; [exact E1|]. exists e. split; [reflexivity | exact Hc].
Qed.

End Start.

(** The random source of the scenarios draws one half: the pauses of a
    run with one conflict are within the range. *)
Example start_pause_in_range :
  unit_interval Scenario.flag_set /\
  forall d,
    In d (pauses (snd (start Scenario.whitelist Scenario.flag_set
                             Scenario.conflict_once Scenario.one_step
                             Scenario.build_step []))) ->
    (500 * Millisecond <= d <= 750 * Millisecond)%Z.
Proof.
  split.
  - intros h. simpl. split; [discriminate | reflexivity].
  - assert (E : pauses (snd (start Scenario.whitelist Scenario.flag_set
                                   Scenario.conflict_once Scenario.one_step
                                   Scenario.build_step []))
                = [625000000%Z]) by (vm_compute; reflexivity).
    rewrite E. intros d [<-|[]]. unfold Millisecond. lia.
Qed.

Example always_conflicts_conflicting :
  always_conflicts Scenario.conflicting.
Proof.
  split.
  - intros h ns name. exists Scenario.pending_pod. reflexivity.
  - intros h ev. eexists. split; reflexivity.
Qed.

Example never_conflicts_flaky_logs : never_conflicts Scenario.flaky_logs.
Proof. split; simpl; intros; discriminate. Qed.

(** Scenario 8 of the spec: a conflict on the first update, success on the
    second; two attempts, one pause. *)
Example start_conflict_once :
  let r := start Scenario.whitelist Scenario.flag_set Scenario.conflict_once
                 Scenario.one_step Scenario.build_step [] in
  fst r = Some None /\ attempts (snd r) = 2 /\ pauses (snd r) = [625000000%Z].
Proof. vm_compute. repeat split; reflexivity. Qed.

(** C2, as stated, fails: against an API server that always answers with
    a conflict, the 14 pauses of [start] all last 625 ms when the random
    source draws one half each time; the delay does not grow. *)
Lemma start_delay_does_not_grow :
  ~ grows (pauses (snd (start Scenario.whitelist Scenario.flag_set
                              Scenario.conflicting Scenario.one_step
                              Scenario.build_step []))).
Proof.
  assert (E : pauses (snd (start Scenario.whitelist Scenario.flag_set
                                 Scenario.conflicting Scenario.one_step
                                 Scenario.build_step []))
              = repeat 625000000%Z 14) by (vm_compute; reflexivity).
  rewrite E. intros G.
  specialize (G 0 625000000%Z 625000000%Z eq_refl eq_refl). lia.
Qed.

(** *** The log tail of Run *)

Section Tail.

Variable statusesWhiteList : list string.
Variable image_Match : string -> string -> bool.
Variable host : Host.
Variable k : Kubernetes.
Variable spec : Spec.
Variable step : Step.

Lemma tail_trace h :
  snd (tail k spec step h) =
  h ++ [PodsLog (PodSpec_Namespace (Spec_PodSpec spec))
                (PodSpec_Name (Spec_PodSpec spec)) (Step_ID step) true].
Proof. reflexivity. Qed.

Lemma waitForTerminated_trace h :
  snd (waitForTerminated image_Match k spec step h) =
  h ++ [PodsWatch (PodSpec_Namespace (Spec_PodSpec spec))
                  (String.append "io.drone.name="
                                 (PodSpec_Name (Spec_PodSpec spec)))].
Proof.
  unfold waitForTerminated, bind, waitFor, ret.
  destruct (fst (UntilWithSync _ _ _ _)); reflexivity.
Qed.

(** Once the step is started and ready, [Run] requests the logs at least
    once and at most three times; when the first request fails it
    requests them again, whatever the flag; when the flag is not "true"
    there are at most two requests. *)
Lemma Run_tails_logs_up_to_three_times h h1 h2 :
  start statusesWhiteList host k spec step h = (Some None, h1) ->
  waitForReady image_Match k spec step h1 = (None, h2) ->
  exists t,
    snd (Run statusesWhiteList image_Match host k spec step h) = h2 ++ t /\
    1 <= tails t <= 3 /\
    (isSome (fst (tail k spec step h2)) = true -> 2 <= tails t) /\
    ((forall h', os_Getenv host h' "DRONE_FEATURE_FLAG_RETRY_LOGS" <> "true")
     -> tails t <= 2).
Proof.
  intros Hs Hr. unfold Run. unfold bind at 1. rewrite Hs.
  unfold bind at 1. rewrite Hr.
  unfold bind at 1. unfold bind at 1.
  destruct (tail k spec step h2) as [r3 h3] eqn:T1.
  pose proof (tail_trace h2) as E3. rewrite T1 in E3. simpl in E3. subst h3.
  destruct r3 as [e|]; cbn [fst isSome].
  - unfold bind at 1. unfold getenv at 1. unfold bind at 1.
    destruct (String.eqb_spec
                (os_Getenv host (h2 ++ [PodsLog
                   (PodSpec_Namespace (Spec_PodSpec spec))
                   (PodSpec_Name (Spec_PodSpec spec)) (Step_ID step) true])
                   "DRONE_FEATURE_FLAG_RETRY_LOGS") "true") as [F|F].
    + unfold bind at 1. unfold time_After at 1, emit at 1.
      match goal with
      | |- context [tail k spec step ?hh] =>
          destruct (tail k spec step hh) as [r5 h5] eqn:T2;
          pose proof (tail_trace hh) as E5; rewrite T2 in E5; simpl in E5;
          subst h5
      end.
      destruct r5 as [e2|].
      * unfold bind at 1. unfold time_After at 1, emit at 1.
        match goal with
        | |- context [tail k spec step ?hh] =>
            destruct (tail k spec step hh) as [r7 h7] eqn:T3;
            pose proof (tail_trace hh) as E7; rewrite T3 in E7; simpl in E7;
            subst h7
        end.
        destruct r7 as [e3|]; unfold ret at 1.
        -- eexists. split; [simpl; repeat rewrite <- app_assoc; reflexivity|].
           simpl. split; [lia|]. split; [lia|].
           intros Hflag. exfalso. apply (Hflag _ F).
        -- unfold bind at 1.
           match goal with
           | |- context [waitForTerminated image_Match k spec step ?hh] =>
               destruct (waitForTerminated image_Match k spec step hh)
                 as [r9 h9] eqn:W;
               pose proof (waitForTerminated_trace hh) as E9;
               rewrite W in E9; simpl in E9; subst h9
           end.
           eexists. split; [simpl; repeat rewrite <- app_assoc; reflexivity|].
           simpl. split; [lia|]. split; [lia|].
           intros Hflag. exfalso. apply (Hflag _ F).
      * unfold ret at 1. unfold bind at 1.
        match goal with
        | |- context [waitForTerminated image_Match k spec step ?hh] =>
            destruct (waitForTerminated image_Match k spec step hh)
              as [r9 h9] eqn:W;
            pose proof (waitForTerminated_trace hh) as E9;
            rewrite W in E9; simpl in E9; subst h9
        end.
        eexists. split; [simpl; repeat rewrite <- app_assoc; reflexivity|].
        simpl. split; [lia|]. split; [lia|]. intros _. lia.
    + unfold ret at 1. unfold bind at 1.
      unfold time_After at 1, emit at 1.
      match goal with
      | |- context [tail k spec step ?hh] =>
          destruct (tail k spec step hh) as [r5 h5] eqn:T2;
          pose proof (tail_trace hh) as E5; rewrite T2 in E5; simpl in E5;
          subst h5
      end.
      destruct r5 as [e2|].
      * eexists. split; [simpl; repeat rewrite <- app_assoc; reflexivity|].
        simpl. split; [lia|]. split; [lia|]. intros _. lia.
      * unfold bind at 1.
        match goal with
        | |- context [waitForTerminated image_Match k spec step ?hh] =>
            destruct (waitForTerminated image_Match k spec step hh)
              as [r9 h9] eqn:W;
            pose proof (waitForTerminated_trace hh) as E9;
            rewrite W in E9; simpl in E9; subst h9
        end.
        eexists. split; [simpl; repeat rewrite <- app_assoc; reflexivity|].
        simpl. split; [lia|]. split; [lia|]. intros _. lia.
  - unfold ret at 1. unfold bind at 1.
    match goal with
    | |- context [waitForTerminated image_Match k spec step ?hh] =>
        destruct (waitForTerminated image_Match k spec step hh)
          as [r9 h9] eqn:W;
        pose proof (waitForTerminated_trace hh) as E9;
        rewrite W in E9; simpl in E9; subst h9
    end.
    eexists. split; [simpl; repeat rewrite <- app_assoc; reflexivity|].
    simpl. split; [lia|]. split; [discriminate|]. intros _. lia.
Qed.

(** [Run] always returns: the model of the retry loop of [start] has
    fuel enough. *)
Lemma Run_total h :
  exists r, fst (Run statusesWhiteList image_Match host k spec step h) = Some r.
Proof.
  destruct (start_total statusesWhiteList host k spec step h)
    as (err & t & Hstart & _).
  unfold Run. unfold bind at 1. rewrite Hstart.
  destruct err as [e|]; [eexists; reflexivity|].
  unfold bind, ret.
  repeat match goal with
         | |- context [match ?x with _ => _ end] => destruct x
         end;
    eexists; reflexivity.
Qed.

End Tail.

(** C1 at a run with DRONE_FEATURE_FLAG_RETRY_LOGS unset whose first log
    request fails: [Run] pauses 5 s and requests the logs a second time,
    then waits for the container and returns its state; the error of the
    first request is not returned. *)
Lemma Run_retries_tail_with_flag_unset :
  os_Getenv Scenario.flag_unset [] "DRONE_FEATURE_FLAG_RETRY_LOGS" = "" /\
  fst (tail Scenario.flaky_logs Scenario.one_step Scenario.build_step [])
  = Some (errorString "container is waiting to start") /\
  Run Scenario.whitelist String.eqb Scenario.flag_unset Scenario.flaky_logs
      Scenario.one_step Scenario.build_step []
  = (Some (Some {| ExitCode := 3; Exited := true; OOMKilled := false |}, None),
     [Lock;
      PodsGet "drone" "drone-pod";
      PodsUpdate "drone"
        {| Pod_Name := "drone-pod";
           Pod_Annotations := Some [("DRONE_BUILD_STATUS", "success");
                                    ("DRONE_STAGE_STATUS", "")];
           Pod_Containers := [ {| Container_Name := "step-1";
                                  Container_Image := "golang:1.15" |} ];
           Pod_ContainerStatuses := [] |};
      Unlock;
      PodsWatch "drone" "io.drone.name=drone-pod";
      PodsLog "drone" "drone-pod" "step-1" true;
      Getenv "DRONE_FEATURE_FLAG_RETRY_LOGS";
      After 5000000000;
      PodsLog "drone" "drone-pod" "step-1" true;
      PodsWatch "drone" "io.drone.name=drone-pod"]).
Proof. repeat split; vm_compute; reflexivity. Qed.

(** When every log request fails: two requests without the flag, three
    with it, and the error of the last one is returned. *)
Example Run_failing_logs :
  let run host := Run Scenario.whitelist String.eqb host Scenario.failing_logs
                      Scenario.one_step Scenario.build_step [] in
  fst (run Scenario.flag_unset)
  = Some (None, Some (errorString "container is waiting to start")) /\
  tails (snd (run Scenario.flag_unset)) = 2 /\
  fst (run Scenario.flag_set)
  = Some (None, Some (errorString "container is waiting to start")) /\
  tails (snd (run Scenario.flag_set)) = 3.
Proof. repeat split; vm_compute; reflexivity. Qed.

End RunSpec.

(** ** The runner *)

Module RunnerSpec.
Import Go Drone Runner.

Section ConfigInvalid.

Variables Manifest Resource System Netrc SecretProvider Spec : Type.
Variable pkg : Imports Manifest System SecretProvider Spec.
Variable s : Runner.Runner Manifest Resource System Netrc SecretProvider Spec.

(** C7. When the configuration of the stage fails with [err] at shell
    substitution, YAML parsing, resource lookup or linting, [run] fails
    the whole state with one error, reports the stage exactly once and
    returns what the reporter returns; the compiler, the stage update
    and the execution of the steps are not called.  The error is [err]
    itself whenever the [Match] test lets the build through (otherwise
    the configuration is never looked at and the error is the refusal). *)
Theorem run_config_failure_fails_all_and_reports_once :
  forall (stage : Stage) (data : Context System Netrc) (err : error)
         (h : list (Event Manifest Resource System Netrc SecretProvider Spec)),
    config_fails pkg s stage data err ->
    exists e,
      run pkg s stage data h =
      (Reporter_ReportStage s (State_FailAll pkg e (new_state stage data)),
       h ++ [GoWatch (Build_ID (Context_Build data));
             ReportStage (State_FailAll pkg e (new_state stage data))]) /\
      (admitted s data -> e = err).
Proof.
  intros stage data err h Hfail.
  assert (Hreport : forall e,
            fail pkg s e (new_state stage data)
                 (h ++ [GoWatch (Build_ID (Context_Build data))]) =
            (Reporter_ReportStage s (State_FailAll pkg e (new_state stage data)),
             h ++ [GoWatch (Build_ID (Context_Build data));
                   ReportStage (State_FailAll pkg e (new_state stage data))])).
  { intros e. unfold fail, call. rewrite <- app_assoc. reflexivity. }
  assert (Hconfig :
            match envsubst_Eval _ _ _ _ pkg (Context_Config _ _ data)
                                (subf pkg s stage data) with
            | inr e => e = err
            | inl config =>
                match manifest_ParseString _ _ _ _ pkg config with
                | inr e => e = err
                | inl manifest =>
                    match Lookup _ _ _ _ _ _ s (Stage_Name stage) manifest with
                    | inr e => e = err
                    | inl resource =>
                        Lint _ _ _ _ _ _ s resource (Context_Repo data)
                        = Some err
                    end
                end
            end).
  { destruct Hfail
      as [H|(config & -> & [H|(manifest & -> & [H|(resource & -> & H)])])];
      rewrite H; reflexivity. }
  unfold run, bind, admitted. unfold call at 1.
  destruct (Match s) as [f|].
  - destruct (f (Context_Repo data) (Context_Build data)) eqn:Hm;
      cbn [negb].
    + exists err. split; [|reflexivity].
      destruct (envsubst_Eval _ _ _ _ pkg _ _) as [config|e];
        [|subst e; apply Hreport].
      destruct (manifest_ParseString _ _ _ _ pkg config) as [manifest|e];
        [|subst e; apply Hreport].
      destruct (Lookup _ _ _ _ _ _ s _ manifest) as [resource|e];
        [|subst e; apply Hreport].
      rewrite Hconfig. apply Hreport.
    + eexists. split; [apply Hreport|]. discriminate.
  - exists err. split; [|reflexivity].
    destruct (envsubst_Eval _ _ _ _ pkg _ _) as [config|e];
      [|subst e; apply Hreport].
    destruct (manifest_ParseString _ _ _ _ pkg config) as [manifest|e];
      [|subst e; apply Hreport].
    destruct (Lookup _ _ _ _ _ _ s _ manifest) as [resource|e];
      [|subst e; apply Hreport].
    rewrite Hconfig. apply Hreport.
Qed.

End ConfigInvalid.

(** The theorem at a stage whose configuration file is empty. *)
Lemma run_empty_config :
  config_fails RunnerScenario.imports RunnerScenario.runner
               RunnerScenario.stage RunnerScenario.empty_config
               (errorString "yaml: empty document") /\
  exists e,
    run RunnerScenario.imports RunnerScenario.runner RunnerScenario.stage
        RunnerScenario.empty_config [] =
    (None,
     [] ++ [GoWatch 42;
            ReportStage (State_FailAll RunnerScenario.imports e
                           (new_state RunnerScenario.stage
                                      RunnerScenario.empty_config))]) /\
    (admitted RunnerScenario.runner RunnerScenario.empty_config ->
     e = errorString "yaml: empty document").
Proof.
  assert (H : config_fails RunnerScenario.imports RunnerScenario.runner
                RunnerScenario.stage RunnerScenario.empty_config
                (errorString "yaml: empty document")).
  { right. exists "". split; [reflexivity|]. left. reflexivity. }
  split; [exact H|].
  exact (run_config_failure_fails_all_and_reports_once
           _ _ _ _ _ _ RunnerScenario.imports RunnerScenario.runner
           RunnerScenario.stage RunnerScenario.empty_config
           (errorString "yaml: empty document") [] H).
Defined.

(** The same run, evaluated: one report, of a stage in error. *)
Example run_empty_config_trace :
  run RunnerScenario.imports RunnerScenario.runner RunnerScenario.stage
      RunnerScenario.empty_config [] =
  (None,
   [GoWatch 42;
    ReportStage {|
      State_Build := Context_Build RunnerScenario.empty_config;
      State_Stage := {|
        Stage_ID := 7; Stage_Name := "default"; Stage_Number := 1;
        Stage_Machine := "runner-1"; Stage_Status := "error";
        Stage_Error := "yaml: empty document";
        Stage_Started := 0; Stage_Stopped := 0; Stage_Steps := [] |};
      State_Repo := Context_Repo RunnerScenario.empty_config;
      State_System := tt |}]).
Proof. reflexivity. Qed.

End RunnerSpec.

(** ** start: the image swap *)

Module StartSpec.
Import Go Engine Observe Discipline.

Section Swap.

Variable statusesWhiteList : list string.
Variable step : Step.

Lemma map_get_set_eq k v m : map_get (map_set k v m) k = v.
Proof.
  induction m as [|[k' v'] m IH]; simpl.
  - rewrite String.eqb_refl. reflexivity.
  - destruct (String.eqb k' k) eqn:E; simpl.
    + rewrite String.eqb_refl. reflexivity.
    + rewrite E. exact IH.
Qed.

Lemma map_get_set_neq k k' v m :
  k <> k' -> map_get (map_set k v m) k' = map_get m k'.
Proof.
  intros Hne. induction m as [|[k0 v0] m IH]; simpl.
  - destruct (String.eqb_spec k k'); [contradiction | reflexivity].
  - destruct (String.eqb_spec k0 k) as [->|Hk]; simpl.
    + destruct (String.eqb_spec k k'); [contradiction | reflexivity].
    + destruct (String.eqb k0 k'); [reflexivity | exact IH].
Qed.

Lemma whitelist_lookup (envs : StringMap) (keys : list string) : forall m key,
  map_get (fold_left (fun m env => map_set env (map_get envs env) m) keys m)
          key =
  if existsb (String.eqb key) keys then map_get envs key else map_get m key.
Proof.
  induction keys as [|a keys IH]; intros m key; simpl; [reflexivity|].
  rewrite IH. destruct (existsb (String.eqb key) keys).
  - rewrite orb_true_r. reflexivity.
  - rewrite orb_false_r. destruct (String.eqb_spec key a) as [->|Hne].
    + apply map_get_set_eq.
    + apply map_get_set_neq. congruence.
Qed.

Lemma swap_containers containers : forall annotations,
  fst (swap statusesWhiteList step containers annotations) =
  map (fun c => if named_as_step step c
                then {| Container_Name := Container_Name c;
                        Container_Image := Step_Image step |}
                else c) containers.
Proof.
  induction containers as [|c rest IH]; intros annotations; simpl;
    [reflexivity|].
  unfold named_as_step at 1.
  destruct (String.eqb (Container_Name c) (Step_ID step)).
  - specialize (IH (annotate statusesWhiteList step annotations)).
    destruct (swap statusesWhiteList step rest _) as [rest' ann'].
    simpl in *. rewrite IH. reflexivity.
  - specialize (IH annotations).
    destruct (swap statusesWhiteList step rest _) as [rest' ann'].
    simpl in *. rewrite IH. reflexivity.
Qed.

(** X1. The loop of [start] keeps the number, the order and the names of
    the pod's containers; a container named as the step gets the step's
    image, every other container keeps its image. *)
Theorem swap_changes_only_the_image_of_the_step :
  forall (containers : list Container) (annotations : option StringMap),
    let containers' :=
      fst (swap statusesWhiteList step containers annotations) in
    length containers' = length containers /\
    map Container_Name containers' = map Container_Name containers /\
    (forall i c, nth_error containers i = Some c ->
       exists c', nth_error containers' i = Some c' /\
         Container_Image c' =
         if String.eqb (Container_Name c) (Step_ID step)
         then Step_Image step else Container_Image c).
Proof.
  intros containers annotations containers'. subst containers'.
  rewrite swap_containers. split; [apply length_map|]. split.
  - rewrite map_map. apply map_ext. intros c.
    destruct (named_as_step step c); reflexivity.
  - intros i c Hnth. eexists. split.
    + apply map_nth_error. exact Hnth.
    + unfold named_as_step.
      destruct (String.eqb (Container_Name c) (Step_ID step)); reflexivity.
Qed.

Lemma annotate_lookup annotations key :
  map_get (or_empty (annotate statusesWhiteList step annotations)) key =
  if existsb (String.eqb key) statusesWhiteList
  then map_get (Step_Envs step) key
  else map_get (or_empty annotations) key.
Proof. unfold annotate. simpl. apply whitelist_lookup. Qed.

Lemma swap_annotations containers : forall annotations,
  (existsb (named_as_step step) containers = false ->
   snd (swap statusesWhiteList step containers annotations) = annotations) /\
  (existsb (named_as_step step) containers = true ->
   exists m,
     snd (swap statusesWhiteList step containers annotations) = Some m /\
     forall key,
       map_get m key =
       if existsb (String.eqb key) statusesWhiteList
       then map_get (Step_Envs step) key
       else map_get (or_empty annotations) key).
Proof.
  induction containers as [|c rest IH]; intros annotations; simpl.
  - split; [reflexivity | discriminate].
  - unfold named_as_step at 1 3.
    destruct (String.eqb (Container_Name c) (Step_ID step)); simpl.
    + split; [discriminate|]. intros _.
      destruct (IH (annotate statusesWhiteList step annotations))
        as [Hno Hyes].
      destruct (swap statusesWhiteList step rest _) as [rest' ann'].
      cbn [fst snd] in *.
      destruct (existsb (named_as_step step) rest).
      * destruct (Hyes eq_refl) as (m & -> & Hm). exists m.
        split; [reflexivity|]. intros key. rewrite Hm, annotate_lookup.
        destruct (existsb (String.eqb key) statusesWhiteList); reflexivity.
      * rewrite (Hno eq_refl). unfold annotate at 1. eexists.
        split; [reflexivity|]. intros key. apply whitelist_lookup.
    + destruct (IH annotations) as [Hno Hyes].
      destruct (swap statusesWhiteList step rest _) as [rest' ann'].
      cbn [fst snd] in *. split; assumption.
Qed.

(** X2. When no container of the pod is named as the step, the loop of
    [start] leaves the annotations as they are, a nil map included.
    Otherwise the annotations become a map in which every white-listed
    variable has the value of the step's environment (the empty string
    when the step does not define it) and every other key has the value
    it had. *)
Theorem swap_annotates_with_the_white_listed_variables :
  forall (containers : list Container) (annotations : option StringMap),
    (existsb (fun c => String.eqb (Container_Name c) (Step_ID step))
             containers = false ->
     snd (swap statusesWhiteList step containers annotations) = annotations)
    /\
    (existsb (fun c => String.eqb (Container_Name c) (Step_ID step))
             containers = true ->
     exists m,
       snd (swap statusesWhiteList step containers annotations) = Some m /\
       forall key,
         map_get m key =
         if existsb (String.eqb key) statusesWhiteList
         then map_get (Step_Envs step) key
         else map_get (match annotations with None => [] | Some a => a end)
                      key).
Proof. intros containers annotations. apply swap_annotations. Qed.

End Swap.

Section Loop.

Variable statusesWhiteList : list string.
Variable host : Host.
Variable k : Kubernetes.
Variable spec : Spec.
Variable step : Step.

(** X3. [start] stops at the first attempt that does not end in a
    conflict: when the first read-modify-write succeeds, or fails with an
    error that is neither a conflict nor the timeout sentinel of the wait
    package, [start] returns its result as it is, after that single
    attempt and without any pause. *)
Theorem start_returns_the_first_attempt_unless_conflict :
  forall h : list Event,
    match fst (start_attempt statusesWhiteList k spec step h) with
    | None => True
    | Some e => IsConflict e = false /\ e <> ErrWaitTimeout
    end ->
    start statusesWhiteList host k spec step h =
    (Some (fst (start_attempt statusesWhiteList k spec step h)),
     snd (start_attempt statusesWhiteList k spec step h)).
Proof.
  intros h Hfirst. unfold start, RetryOnConflict, OnError.
  change (S (Z.to_nat (Backoff_Steps backoff))) with 16.
  cbn [ExponentialBackoff].
  change (Backoff_Steps backoff >? 0)%Z with true. cbv iota.
  unfold bind at 1. unfold bind at 1. unfold bind at 1.
  destruct (start_attempt statusesWhiteList k spec step h) as [r h1].
  cbn [fst snd] in *. destruct r as [e|].
  - destruct Hfirst as [Hc Hne]. rewrite Hc. unfold ret. cbn [isSome orb].
    destruct e; try reflexivity. contradiction.
  - reflexivity.
Qed.

Lemma disciplined_app a : forall held b,
  disciplined held a = true -> disciplined false b = true ->
  disciplined held (a ++ b) = true.
Proof.
  induction a as [|e a IH]; intros held b Ha Hb.
  - simpl in *. destruct held; [discriminate | exact Hb].
  - destruct e; destruct held; simpl in *; try discriminate;
      apply IH; assumption.
Qed.

Lemma start_attempt_disciplined h :
  exists t,
    snd (start_attempt statusesWhiteList k spec step h) = h ++ t /\
    disciplined false t = true.
Proof.
  unfold start_attempt, bind, emit, write, ret.
  destruct (api_get (client k) (h ++ [Lock]) _ _) as [pod|e].
  - destruct (swap statusesWhiteList step (Pod_Containers pod)
                   (Pod_Annotations pod)) as [containers annotations].
    match goal with
    | |- context [api_write (client k) ?h' ?ev] =>
        destruct (api_write (client k) h' ev);
        exists [Lock; PodsGet (PodSpec_Namespace (Spec_PodSpec spec))
                              (PodSpec_Name (Spec_PodSpec spec)); ev; Unlock]
    end; simpl; repeat rewrite <- app_assoc; split; reflexivity.
  - exists [Lock; PodsGet (PodSpec_Namespace (Spec_PodSpec spec))
                          (PodSpec_Name (Spec_PodSpec spec)); Unlock].
    simpl; repeat rewrite <- app_assoc; split; reflexivity.
Qed.

Lemma retry_loop_disciplined : forall fuel n last h,
  (1 <= n)%Z -> Z.to_nat n <= fuel ->
  exists r t,
    ExponentialBackoff fuel host (remaining n)
      (fun lastErr : option error =>
         bind (start_attempt statusesWhiteList k spec step) (fun err =>
           match err with
           | None => ret ((true, None), lastErr)
           | Some e => if IsConflict e then ret ((false, None), Some e)
                       else ret ((false, Some e), lastErr)
           end)) last h
    = (Some r, h ++ t) /\
    disciplined false t = true.
Proof.
  induction fuel as [|fuel IH]; intros n last h Hn Hfuel; [lia|].
  cbn [ExponentialBackoff]. unfold remaining at 1. cbn [Backoff_Steps].
  replace (n >? 0)%Z with true by (symmetry; apply Z.gtb_lt; lia).
  destruct (start_attempt_disciplined h) as (ta & Hsnd & Hta).
  unfold bind at 1. unfold bind at 1.
  destruct (start_attempt statusesWhiteList k spec step h) as [r h1].
  cbn [snd] in Hsnd. subst h1.
  destruct r as [e|].
  - destruct (IsConflict e).
    + unfold ret at 1. cbn [isSome orb].
      unfold remaining at 1. cbn [Backoff_Steps].
      destruct (n =? 1)%Z eqn:N1.
      * unfold ret. eexists. exists ta. split; [reflexivity | exact Hta].
      * apply Z.eqb_neq in N1.
        destruct (RunSpec.Backoff_Step_remaining host n (h ++ ta) Hn)
          as (d & Hstep & _).
        unfold bind at 1. rewrite Hstep.
        unfold bind at 1. unfold time_Sleep, emit. cbn [fst snd].
        destruct (IH (n - 1)%Z (Some e) ((h ++ ta) ++ [Sleep d]))
          as (r & t & Hrun & Ht); [lia | lia |].
        exists r, (ta ++ Sleep d :: t).
        split.
        -- rewrite Hrun. repeat rewrite <- app_assoc. reflexivity.
        -- apply disciplined_app; [exact Hta|]. simpl. exact Ht.
    + unfold ret. cbn [isSome orb]. eexists. exists ta.
      split; [reflexivity | exact Hta].
  - unfold ret. cbn [isSome orb]. eexists. exists ta.
    split; [reflexivity | exact Hta].
Qed.

(** X4. Whatever the API server answers, the events of [start] respect the
    pod mutex: the mutex is taken once per attempt and released before
    [start] pauses or returns, every read and every update of the pod
    happens while it is held, and [start] never pauses while holding it. *)
Theorem start_respects_the_pod_mutex :
  forall h : list Event,
  exists (err : option error) (t : list Event),
    start statusesWhiteList host k spec step h = (Some err, h ++ t) /\
    disciplined false t = true.
Proof.
  intros h. unfold start, RetryOnConflict, OnError.
  change backoff with (remaining 15).
  change (Backoff_Steps (remaining 15)) with 15%Z.
  destruct (retry_loop_disciplined (S (Z.to_nat 15)) 15 None h)
    as ([err last'] & t & Hrun & Ht); [lia | lia |].
  unfold bind at 1. rewrite Hrun.
  eexists. exists t. split; [reflexivity | exact Ht].
Qed.

End Loop.

(** X3 at a pod the API server does not know: one attempt, no update, the
    error is returned. *)
Lemma start_pod_not_found :
  match fst (start_attempt Scenario.whitelist ExtraScenario.pod_not_found
                           Scenario.one_step Scenario.build_step []) with
  | None => True
  | Some e => IsConflict e = false /\ e <> ErrWaitTimeout
  end /\
  start Scenario.whitelist Scenario.flag_unset ExtraScenario.pod_not_found
        Scenario.one_step Scenario.build_step [] =
  (Some (Some (StatusError StatusReasonNotFound "drone-pod")),
   [Lock; PodsGet "drone" "drone-pod"; Unlock]).
Proof.
  assert (H : match fst (start_attempt Scenario.whitelist
                           ExtraScenario.pod_not_found
                           Scenario.one_step Scenario.build_step []) with
              | None => True
              | Some e => IsConflict e = false /\ e <> ErrWaitTimeout
              end).
  { simpl. split; [reflexivity | discriminate]. }
  split; [exact H|].
  exact (start_returns_the_first_attempt_unless_conflict
           Scenario.whitelist Scenario.flag_unset ExtraScenario.pod_not_found
           Scenario.one_step Scenario.build_step [] H).
Defined.

End StartSpec.

(** ** Watching the pod *)

Module WatchSpec.
Import Go Engine Observe Discipline.

Section Conditions.

Variable image_Match : string -> string -> bool.
Variable step : Step.

Lemma ready_existsb statuses :
  ready image_Match step statuses = existsb (is_ready image_Match step) statuses.
Proof.
  induction statuses as [|cs rest IH]; simpl; [reflexivity|].
  unfold is_ready at 1.
  destruct (String.eqb (Status_Name cs) (Step_ID step)); simpl; [|exact IH].
  destruct (image_Match (Status_Image cs) (Step_Placeholder step)); simpl;
    [exact IH|].
  destruct (State_Running (Status_State cs)
            || isSome (State_Terminated (Status_State cs))); simpl;
    [reflexivity | exact IH].
Qed.

Lemma terminated_existsb statuses state :
  fst (fst (terminated image_Match step statuses state)) =
  existsb (is_terminated image_Match step) statuses.
Proof.
  induction statuses as [|cs rest IH]; simpl; [reflexivity|].
  unfold is_terminated at 1.
  destruct (String.eqb (Status_Name cs) (Step_ID step)); simpl; [|exact IH].
  destruct (image_Match (Status_Image cs) (Step_Placeholder step)); simpl;
    [exact IH|].
  destruct (State_Terminated (Status_State cs)); simpl;
    [reflexivity | exact IH].
Qed.

Lemma is_terminated_is_ready cs :
  is_terminated image_Match step cs = true ->
  is_ready image_Match step cs = true.
Proof.
  unfold is_terminated, is_ready. intros H.
  apply andb_true_iff in H. destruct H as [H1 H2]. rewrite H1, H2.
  rewrite orb_true_r. reflexivity.
Qed.

(** X5. The test of [waitForReady] holds for a pod exactly when some
    container status, at any position, bears the step's name, runs an
    image other than the placeholder and is running or terminated; the
    test of [waitForTerminated] exactly when some such status is
    terminated.  A pod that passes the test of [waitForTerminated]
    passes the test of [waitForReady]. *)
Theorem ready_and_terminated_look_at_every_status :
  forall (statuses : list ContainerStatus) (state : State),
    (ready image_Match step statuses = true <->
     exists cs, In cs statuses /\ is_ready image_Match step cs = true) /\
    (fst (fst (terminated image_Match step statuses state)) = true <->
     exists cs, In cs statuses /\ is_terminated image_Match step cs = true) /\
    (fst (fst (terminated image_Match step statuses state)) = true ->
     ready image_Match step statuses = true).
Proof.
  intros statuses state.
  rewrite ready_existsb, terminated_existsb, !existsb_exists.
  split; [reflexivity|]. split; [reflexivity|].
  intros (cs & Hin & Ht). exists cs.
  split; [exact Hin | apply is_terminated_is_ready; exact Ht].
Qed.

(** X6. [waitForTerminated] takes the exit code of the first container
    status, in the order of the pod's list, that passes its test; the
    other fields of the state are left as they are.  When no status
    passes, the state is unchanged and the wait goes on. *)
Theorem terminated_takes_the_first_exit_code :
  forall (before after : list ContainerStatus) (cs : ContainerStatus)
         (state : State),
    (forall c, In c before -> is_terminated image_Match step c = false) ->
    is_terminated image_Match step cs = true ->
    exists t,
      State_Terminated (Status_State cs) = Some t /\
      terminated image_Match step (before ++ cs :: after) state =
      ((true, None),
       {| ExitCode := Terminated_ExitCode t;
          Exited := Exited state;
          OOMKilled := OOMKilled state |}) /\
      terminated image_Match step before state = ((false, None), state).
Proof.
  intros before after cs state Hbefore Hcs.
  assert (Hskip : forall l,
            terminated image_Match step (before ++ l) state =
            terminated image_Match step l state).
  { induction before as [|c before IH]; intros l; [reflexivity|].
    simpl. pose proof (Hbefore c (or_introl eq_refl)) as Hc.
    unfold is_terminated in Hc.
    destruct (String.eqb (Status_Name c) (Step_ID step)); simpl in *;
      [|apply IH; intros c' Hin; apply Hbefore; right; exact Hin].
    destruct (image_Match (Status_Image c) (Step_Placeholder step));
      simpl in *;
      [apply IH; intros c' Hin; apply Hbefore; right; exact Hin|].
    destruct (State_Terminated (Status_State c)); simpl in *;
      [discriminate|].
    apply IH; intros c' Hin; apply Hbefore; right; exact Hin. }
  unfold is_terminated in Hcs.
  apply andb_true_iff in Hcs. destruct Hcs as [Hcs Ht].
  apply andb_true_iff in Hcs. destruct Hcs as [Hname Himg].
  destruct (State_Terminated (Status_State cs)) as [t|] eqn:E;
    [|discriminate].
  exists t. split; [reflexivity|]. split.
  - rewrite Hskip. simpl. rewrite Hname, Himg, E. reflexivity.
  - rewrite <- (app_nil_r before) at 1. rewrite Hskip. reflexivity.
Qed.

End Conditions.

(** X6 on a pod with two statuses of the step: the first one counts. *)
Lemma terminated_first_of_two :
  let status code := {| Status_Name := "step-1";
                        Status_Image := "golang:1.15";
                        Status_State :=
                          {| State_Running := false;
                             State_Terminated :=
                               Some {| Terminated_ExitCode := code |} |} |} in
  let state := {| ExitCode := 0; Exited := true; OOMKilled := false |} in
  is_terminated String.eqb Scenario.build_step (status 3%Z) = true /\
  exists t,
    State_Terminated (Status_State (status 3%Z)) = Some t /\
    terminated String.eqb Scenario.build_step
               ([] ++ status 3%Z :: [status 4%Z]) state =
    ((true, None),
     {| ExitCode := Terminated_ExitCode t; Exited := true;
        OOMKilled := false |}) /\
    terminated String.eqb Scenario.build_step [] state
    = ((false, None), state).
Proof.
  intros status state. split; [reflexivity|].
  apply (terminated_takes_the_first_exit_code String.eqb Scenario.build_step
           [] [status 4%Z] (status 3%Z) state).
  - intros c [].
  - reflexivity.
Defined.

Section Waits.

Variable image_Match : string -> string -> bool.
Variable k : Kubernetes.
Variable spec : Spec.
Variable step : Step.

Lemma UntilWithoutRetry_filter {St : Type} (keep : WatchEvent -> bool)
  (condition : WatchEvent -> St -> (bool * option error) * St)
  (closed : bool) :
  (forall e s, keep e = false -> condition e s = ((false, None), s)) ->
  forall events s,
    UntilWithoutRetry (filter keep events) closed condition s =
    UntilWithoutRetry events closed condition s.
Proof.
  intros Hskip. induction events as [|e rest IH]; intros s; [reflexivity|].
  simpl. destruct (keep e) eqn:K.
  - simpl. destruct (condition e s) as [[done err] s1].
    destruct err; [reflexivity|]. destruct done; [reflexivity | apply IH].
  - rewrite (Hskip e s K). apply IH.
Qed.

Lemma UntilWithSync_concerning {St : Type} (feed : Feed)
  (precondition : StoreGet -> St -> (bool * option error) * St)
  (condition : WatchEvent -> St -> (bool * option error) * St) (s : St) :
  (forall e s0, relevant spec e = false -> condition e s0 = ((false, None), s0))
  -> UntilWithSync (concerning spec feed) precondition condition s =
     UntilWithSync feed precondition condition s.
Proof.
  intros Hskip. unfold UntilWithSync, concerning.
  cbn [Feed_synced Feed_store Feed_events Feed_closed].
  destruct (negb (Feed_synced feed)); [reflexivity|].
  destruct (precondition (Feed_store feed) s) as [[done err] s1].
  destruct err; [reflexivity|]. destruct done; [reflexivity|].
  apply UntilWithoutRetry_filter. exact Hskip.
Qed.


(** X8. [waitForReady] returns nil only if the watch showed a pod that
    passes its test, in the store or in an added or modified event; and
    when the pod in the store passes the test, it returns nil whatever
    the events are. *)
Theorem waitForReady_returns_nil_only_for_a_ready_pod :
  forall h : list Event,
    let feed := api_watch (client k) h
                  (PodSpec_Namespace (Spec_PodSpec spec))
                  (String.append "io.drone.name="
                                 (PodSpec_Name (Spec_PodSpec spec))) in
    (fst (waitForReady image_Match k spec step h) = None ->
     exists pod,
       observes feed pod /\
       ready image_Match step (Pod_ContainerStatuses pod) = true) /\
    (forall pod,
       Feed_synced feed = true ->
       Feed_store feed = StorePod pod ->
       ready image_Match step (Pod_ContainerStatuses pod) = true ->
       fst (waitForReady image_Match k spec step h) = None).
Proof.
  intros h feed. unfold waitForReady, bind, waitFor, ret, UntilWithSync.
  fold feed. cbn [fst snd]. split.
  - destruct (Feed_synced feed); cbn [negb]; [|discriminate].
    destruct (Feed_store feed) as [e| | |pod] eqn:Hstore; cbn [fst snd];
      try discriminate.
    destruct (ready image_Match step (Pod_ContainerStatuses pod)) eqn:Hr.
    + intros _. exists pod. split; [left; exact Hstore | exact Hr].
    + match goal with
      | |- context [UntilWithoutRetry ?ev ?cl ?c ?s0] =>
          set (handler := c);
          destruct (UntilWithoutRetry ev cl handler s0) as [err u] eqn:Hloop
      end.
      cbn [fst]. intros ->.
      destruct (RunSpec.UntilWithoutRetry_done
                  (fun _ : unit => True)
                  (fun _ : unit =>
                     exists pod',
                       observes feed pod' /\
                       ready image_Match step (Pod_ContainerStatuses pod')
                       = true)
                  handler (Feed_events feed) (Feed_closed feed))
        with (s := tt) (s' := u) as [_ HQ]; auto.
      intros e s0 done s' Hin _ Hc. split; [exact I|]. intros ->.
      unfold handler in Hc.
      destruct e as [[pod'|]|[pod'|]| | |]; try discriminate.
      * destruct (negb (String.eqb (Pod_Name pod') _)); [discriminate|].
        injection Hc as Hr' _. exists pod'.
        split; [right; left; exact Hin | exact Hr'].
      * destruct (negb (String.eqb (Pod_Name pod') _)); [discriminate|].
        injection Hc as Hr' _. exists pod'.
        split; [right; right; exact Hin | exact Hr'].
  - intros pod Hsync Hstore Hr. rewrite Hsync, Hstore. cbn [negb].
    rewrite Hr. reflexivity.
Qed.

(** X9. A wait fails instead of blocking when the pod is gone: when the
    cache never synced it returns an error; when the store holds no pod
    it returns "pod doesn't exist" without looking at any event; and when
    the pod in the store does not satisfy the condition and the first
    event that concerns the pod is its deletion, it returns "pod got
    deleted". *)
Theorem waitFor_fails_when_the_pod_is_gone :
  forall (St : Type)
         (conditionFunc : Pod -> St -> (bool * option error) * St) (s : St)
         (h : list Event),
    let feed := api_watch (client k) h
                  (PodSpec_Namespace (Spec_PodSpec spec))
                  (String.append "io.drone.name="
                                 (PodSpec_Name (Spec_PodSpec spec))) in
    (Feed_synced feed = false ->
     exists e, fst (fst (waitFor k spec conditionFunc s h)) = Some e) /\
    (Feed_synced feed = true -> Feed_store feed = StoreMissing ->
     fst (waitFor k spec conditionFunc s h) =
     (Some (errorString "pod doesn't exist"), s)) /\
    (forall pod s1 rest,
       Feed_synced feed = true -> Feed_store feed = StorePod pod ->
       conditionFunc pod s = ((false, None), s1) ->
       filter (relevant spec) (Feed_events feed) = Deleted :: rest ->
       fst (waitFor k spec conditionFunc s h) =
       (Some (errorString "pod got deleted"), s1)).
Proof.
  intros St conditionFunc s h feed. split; [|split].
  - intros Hsync. unfold waitFor, UntilWithSync. fold feed. cbn [fst].
    rewrite Hsync. eexists. reflexivity.
  - intros Hsync Hstore. unfold waitFor, UntilWithSync. fold feed. cbn [fst].
    rewrite Hsync, Hstore. reflexivity.
  - intros pod s1 rest Hsync Hstore Hcond Hdel.
    unfold waitFor. cbn [fst]. fold feed.
    rewrite <- UntilWithSync_concerning.
    + unfold UntilWithSync, concerning.
      cbn [Feed_synced Feed_store Feed_events Feed_closed].
      rewrite Hsync, Hstore, Hcond, Hdel. reflexivity.
    + intros e s0 Hrel.
      destruct e as [[pod'|]|[pod'|]| | |]; simpl in Hrel; try reflexivity;
        try discriminate; rewrite Hrel; reflexivity.
Qed.

End Waits.

(** A pod the store does not hold, and a pod that is ready in the store. *)
Example waitForReady_on_scenarios :
  fst (waitForReady String.eqb ExtraScenario.pod_not_found Scenario.one_step
                    Scenario.build_step []) =
  Some (errorString "pod doesn't exist") /\
  fst (waitForReady String.eqb ExtraScenario.smooth Scenario.one_step
                    Scenario.build_step []) = None.
Proof. split; reflexivity. Qed.

(** A watch that delivers a bookmark, another pod and then the deletion
    of the pod while the step's container still holds the placeholder. *)
Example waitForReady_pod_deleted :
  let other := {| Pod_Name := "other-pod"; Pod_Annotations := None;
                  Pod_Containers := []; Pod_ContainerStatuses := [] |} in
  let k := {| client := {|
      api_write := fun _ _ => None;
      api_get := fun _ _ _ => inl Scenario.pending_pod;
      api_log := fun _ _ _ _ => Copied None;
      api_watch := fun _ _ _ =>
        {| Feed_synced := true; Feed_store := StorePod Scenario.pending_pod;
           Feed_events := [Bookmark; Modified (Some other); Deleted];
           Feed_closed := false |} |} |} in
  filter (relevant Scenario.one_step)
         [Bookmark; Modified (Some other); Deleted] = [Deleted] /\
  fst (waitForReady String.eqb k Scenario.one_step Scenario.build_step []) =
  Some (errorString "pod got deleted").
Proof. split; reflexivity. Qed.

End WatchSpec.

(** ** The course of Run *)

Module RunFlow.
Import Go Engine Observe.

Section Flow.

Variable statusesWhiteList : list string.
Variable image_Match : string -> string -> bool.
Variable host : Host.
Variable k : Kubernetes.
Variable spec : Spec.
Variable step : Step.



(** X11. [Run] asks for no logs before the step's container is ready:
    [start] itself never requests logs; when [start] fails, [Run] returns
    its error having done nothing else; when [waitForReady] fails, [Run]
    returns its error right after that watch. *)
Theorem Run_requests_no_logs_before_the_step_is_ready :
  forall h : list Event,
  exists t,
    snd (start statusesWhiteList host k spec step h) = h ++ t /\
    tails t = 0 /\
    (forall e,
       fst (start statusesWhiteList host k spec step h) = Some (Some e) ->
       Run statusesWhiteList image_Match host k spec step h =
       (Some (None, Some e), h ++ t)) /\
    (forall e,
       fst (start statusesWhiteList host k spec step h) = Some None ->
       fst (waitForReady image_Match k spec step (h ++ t)) = Some e ->
       Run statusesWhiteList image_Match host k spec step h =
       (Some (None, Some e),
        h ++ t ++ [PodsWatch (PodSpec_Namespace (Spec_PodSpec spec))
                     (String.append "io.drone.name="
                                    (PodSpec_Name (Spec_PodSpec spec)))])).
Proof.
  intros h.
  destruct (RunSpec.start_total statusesWhiteList host k spec step h)
    as (err & t & Hstart & Htails).
  exists t. rewrite Hstart. cbn [fst snd].
  split; [reflexivity|]. split; [exact Htails|]. split.
  - intros e He. injection He as ->.
    unfold Run. unfold bind at 1. rewrite Hstart. reflexivity.
  - intros e He Hready. injection He as ->.
    unfold Run. unfold bind at 1. rewrite Hstart.
    unfold bind at 1.
    assert (Htrace : snd (waitForReady image_Match k spec step (h ++ t)) =
                     (h ++ t) ++
                     [PodsWatch (PodSpec_Namespace (Spec_PodSpec spec))
                        (String.append "io.drone.name="
                                       (PodSpec_Name (Spec_PodSpec spec)))])
      by reflexivity.
    destruct (waitForReady image_Match k spec step (h ++ t)) as [r h2].
    cbn [fst snd] in *. subst r h2. rewrite <- app_assoc. reflexivity.
Qed.

(** X12. When the first log request succeeds, [Run] makes no second one,
    does not read the feature flag and never pauses: it goes straight on
    to wait for the container to terminate and returns what that wait
    returns. *)
Theorem Run_with_a_good_first_tail_neither_reads_the_flag_nor_pauses :
  forall h h1 h2 : list Event,
    start statusesWhiteList host k spec step h = (Some None, h1) ->
    waitForReady image_Match k spec step h1 = (None, h2) ->
    fst (tail k spec step h2) = None ->
    Run statusesWhiteList image_Match host k spec step h =
    (Some (fst (waitForTerminated image_Match k spec step
                  (h2 ++ [PodsLog (PodSpec_Namespace (Spec_PodSpec spec))
                                  (PodSpec_Name (Spec_PodSpec spec))
                                  (Step_ID step) true]))),
     h2 ++ [PodsLog (PodSpec_Namespace (Spec_PodSpec spec))
                    (PodSpec_Name (Spec_PodSpec spec)) (Step_ID step) true;
            PodsWatch (PodSpec_Namespace (Spec_PodSpec spec))
                      (String.append "io.drone.name="
                                     (PodSpec_Name (Spec_PodSpec spec)))]).
Proof.
  intros h h1 h2 Hstart Hready Htail.
  unfold Run. unfold bind at 1. rewrite Hstart.
  unfold bind at 1. rewrite Hready.
  unfold bind at 1. unfold bind at 1.
  pose proof (RunSpec.tail_trace k spec step h2) as Ht.
  destruct (tail k spec step h2) as [r h3]. cbn [fst snd] in *. subst r h3.
  unfold ret at 1. unfold bind at 1.
  pose proof (RunSpec.waitForTerminated_trace image_Match k spec step
                (h2 ++ [PodsLog (PodSpec_Namespace (Spec_PodSpec spec))
                                (PodSpec_Name (Spec_PodSpec spec))
                                (Step_ID step) true])) as Hw.
  destruct (waitForTerminated image_Match k spec step _) as [r h4].
  cbn [fst snd] in *. subst h4. unfold ret. rewrite <- app_assoc.
  reflexivity.
Qed.

(** X13. When the history of [Run] ends with a log request, [Run] has
    returned the error answered to that request: of the up to three
    errors of the log requests only the last one is reported. *)
Theorem Run_reports_the_error_of_the_last_log_request :
  forall h h1 h2 h' : list Event,
    start statusesWhiteList host k spec step h = (Some None, h1) ->
    waitForReady image_Match k spec step h1 = (None, h2) ->
    snd (Run statusesWhiteList image_Match host k spec step h) =
    h' ++ [PodsLog (PodSpec_Namespace (Spec_PodSpec spec))
                   (PodSpec_Name (Spec_PodSpec spec)) (Step_ID step) true] ->
    exists e,
      fst (tail k spec step h') = Some e /\
      fst (Run statusesWhiteList image_Match host k spec step h) =
      Some (None, Some e).
Proof.
  intros h h1 h2 h' Hstart Hready.
  remember (Run statusesWhiteList image_Match host k spec step h) as R eqn:ER.
  revert ER.
  unfold Run. unfold bind at 1. rewrite Hstart.
  unfold bind at 1. rewrite Hready.
  unfold bind at 1. unfold bind at 1.
  assert (Hwatch : forall hx r hy,
            waitForTerminated image_Match k spec step hx = (r, hy) ->
            hy = h' ++ [PodsLog (PodSpec_Namespace (Spec_PodSpec spec))
                          (PodSpec_Name (Spec_PodSpec spec))
                          (Step_ID step) true] -> False).
  { intros hx r hy W E.
    pose proof (RunSpec.waitForTerminated_trace image_Match k spec step hx)
      as Hw.
    rewrite W in Hw. cbn [snd] in Hw. rewrite Hw in E.
    apply app_inj_tail in E. destruct E as [_ E]. discriminate. }
  assert (Hlast : forall hx e hy,
            tail k spec step hx = (Some e, hy) ->
            hy = h' ++ [PodsLog (PodSpec_Namespace (Spec_PodSpec spec))
                          (PodSpec_Name (Spec_PodSpec spec))
                          (Step_ID step) true] ->
            fst (tail k spec step h') = Some e).
  { intros hx e hy T E.
    pose proof (RunSpec.tail_trace k spec step hx) as Ht.
    rewrite T in Ht. cbn [snd] in Ht. rewrite Ht in E.
    apply app_inj_tail in E. destruct E as [<- _]. rewrite T. reflexivity. }
  destruct (tail k spec step h2) as [[e|] h3] eqn:T1.
  - unfold bind at 1. destruct (getenv host _ h3) as [flag h4].
    unfold bind at 1.
    destruct (String.eqb flag "true").
    + unfold bind at 1. destruct (time_After _ h4) as [[] h5].
      destruct (tail k spec step h5) as [[e1|] h6] eqn:T2.
      * unfold bind at 1. destruct (time_After _ h6) as [[] h7].
        destruct (tail k spec step h7) as [[e2|] h8] eqn:T3.
        -- intros ->. cbn [fst snd]. intros E. exists e2.
           split; [exact (Hlast _ _ _ T3 E) | reflexivity].
        -- unfold ret at 1. unfold bind at 1.
           destruct (waitForTerminated image_Match k spec step h8)
             as [r h9] eqn:W.
           intros ->. cbn [snd]. intros E. exfalso.
           exact (Hwatch _ _ _ W E).
      * unfold ret at 1. unfold bind at 1.
        destruct (waitForTerminated image_Match k spec step h6)
          as [r h9] eqn:W.
        intros ->. cbn [snd]. intros E. exfalso. exact (Hwatch _ _ _ W E).
    + unfold ret at 1. unfold bind at 1.
      destruct (time_After _ h4) as [[] h5].
      destruct (tail k spec step h5) as [[e1|] h6] eqn:T2.
      * intros ->. cbn [fst snd]. intros E. exists e1.
        split; [exact (Hlast _ _ _ T2 E) | reflexivity].
      * unfold bind at 1.
        destruct (waitForTerminated image_Match k spec step h6)
          as [r h9] eqn:W.
        intros ->. cbn [snd]. intros E. exfalso. exact (Hwatch _ _ _ W E).
  - unfold ret at 1. unfold bind at 1.
    destruct (waitForTerminated image_Match k spec step h3)
      as [r h9] eqn:W.
    intros ->. cbn [snd]. intros E. exfalso. exact (Hwatch _ _ _ W E).
Qed.

End Flow.

(** X12 on an API server where everything succeeds at once. *)
Lemma Run_smooth :
  let run := Run Scenario.whitelist String.eqb Scenario.flag_set
                 ExtraScenario.smooth Scenario.one_step Scenario.build_step in
  let h1 := snd (start Scenario.whitelist Scenario.flag_set
                       ExtraScenario.smooth Scenario.one_step
                       Scenario.build_step []) in
  let h2 := h1 ++ [PodsWatch "drone" "io.drone.name=drone-pod"] in
  fst (tail ExtraScenario.smooth Scenario.one_step Scenario.build_step h2)
  = None /\
  run [] =
  (Some (Some {| ExitCode := 3; Exited := true; OOMKilled := false |}, None),
   h2 ++ [PodsLog "drone" "drone-pod" "step-1" true;
          PodsWatch "drone" "io.drone.name=drone-pod"]).
Proof.
  intros run h1 h2. split; [reflexivity|].
  exact (Run_with_a_good_first_tail_neither_reads_the_flag_nor_pauses
           Scenario.whitelist String.eqb Scenario.flag_set
           ExtraScenario.smooth Scenario.one_step Scenario.build_step
           [] h1 h2 eq_refl eq_refl eq_refl).
Defined.

(** X13 where every log request fails and the flag is unset: the error
    of the second request is what [Run] returns. *)
Lemma Run_last_log_error :
  let run := Run Scenario.whitelist String.eqb Scenario.flag_unset
                 Scenario.failing_logs Scenario.one_step
                 Scenario.build_step in
  let h1 := snd (start Scenario.whitelist Scenario.flag_unset
                       Scenario.failing_logs Scenario.one_step
                       Scenario.build_step []) in
  let h2 := h1 ++ [PodsWatch "drone" "io.drone.name=drone-pod"] in
  let h' := h2 ++ [PodsLog "drone" "drone-pod" "step-1" true;
                   Getenv "DRONE_FEATURE_FLAG_RETRY_LOGS";
                   After 5000000000] in
  snd (run []) = h' ++ [PodsLog "drone" "drone-pod" "step-1" true] /\
  exists e,
    fst (tail Scenario.failing_logs Scenario.one_step Scenario.build_step h')
    = Some e /\
    fst (run []) = Some (None, Some e).
Proof.
  intros run h1 h2 h'.
  assert (E : snd (run []) =
              h' ++ [PodsLog "drone" "drone-pod" "step-1" true])
    by reflexivity.
  split; [exact E|].
  exact (Run_reports_the_error_of_the_last_log_request
           Scenario.whitelist String.eqb Scenario.flag_unset
           Scenario.failing_logs Scenario.one_step Scenario.build_step
           [] h1 h2 h' eq_refl eq_refl E).
Defined.

End RunFlow.

(** ** The result of Destroy *)

Module DestroySpec.
Import Go Engine Lifecycle.

Lemma Destroy_run k spec h :
  Destroy k spec h =
  (match failures (answers k (h ++ [After (Second * 5)])
                           (Destroy_plan spec)) with
   | [] => None
   | errs => Some errs
   end,
   h ++ After (Second * 5) :: Destroy_plan spec).
Proof.
  unfold Destroy, Destroy_plan, time_After, emit, bind, write, ret,
    multierror_Append.
  destruct (Spec_PullSecret spec) as [pull|];
    destruct (String.eqb (Spec_Namespace spec) ""); cbn - [Z.mul];
    repeat lazymatch goal with
           | |- context [match api_write ?c ?h ?e with _ => _ end] =>
               destruct (api_write c h e)
           end;
    cbn - [Z.mul]; repeat rewrite <- app_assoc; reflexivity.
Qed.

Lemma failures_nil l : failures l = [] <-> forall a, In a l -> a = None.
Proof.
  induction l as [|[e|] l IH]; simpl.
  - split; [intros _ a [] | reflexivity].
  - split; [discriminate|]. intros H.
    discriminate (H (Some e) (or_introl eq_refl)).
  - rewrite IH. split.
    + intros H a [<-|Hin]; [reflexivity | apply H; exact Hin].
    + intros H a Hin. apply H. right. exact Hin.
Qed.

Lemma failures_In l e : In e (failures l) <-> In (Some e) l.
Proof.
  induction l as [|[e'|] l IH]; simpl.
  - reflexivity.
  - rewrite IH. split.
    + intros [->|H]; [left; reflexivity | right; exact H].
    + intros [H|H]; [injection H as ->; left; reflexivity | right; exact H].
  - rewrite IH. split; [intros H; right; exact H|].
    intros [H|H]; [discriminate | exact H].
Qed.

Lemma failures_length l : length (failures l) <= length l.
Proof.
  induction l as [|[e|] l IH]; simpl; lia.
Qed.

Lemma answers_length k calls : forall h,
  length (answers k h calls) = length calls.
Proof.
  induction calls as [|c rest IH]; intros h; simpl; [reflexivity|].
  rewrite IH. reflexivity.
Qed.

(** X14. [Destroy] returns nil exactly when every deletion it issued
    succeeded.  An error it returns is never an empty collection: it
    holds between one and four errors, and they are exactly the errors
    the API server answered to the deletions. *)
Theorem Destroy_returns_nil_iff_every_deletion_succeeded :
  forall (k : Kubernetes) (spec : Spec) (h : list Event),
    (fst (Destroy k spec h) = None <->
     forall a, In a (answers k (h ++ [After (Second * 5)])
                             (Destroy_plan spec)) -> a = None) /\
    (forall errs, fst (Destroy k spec h) = Some errs ->
       1 <= length errs <= 4 /\
       forall e, In e errs <->
                 In (Some e) (answers k (h ++ [After (Second * 5)])
                                      (Destroy_plan spec))).
Proof.
  intros k spec h. rewrite Destroy_run. cbn [fst].
  set (ans := answers k (h ++ [After (Second * 5)]) (Destroy_plan spec)).
  assert (Hlen : length ans <= 4).
  { unfold ans. rewrite answers_length. unfold Destroy_plan.
    destruct (Spec_PullSecret spec);
      destruct (String.eqb (Spec_Namespace spec) ""); simpl; lia. }
  split.
  - rewrite <- failures_nil.
    destruct (failures ans); split; try reflexivity; discriminate.
  - intros errs Herrs.
    pose proof (failures_length ans) as Hf.
    pose proof (failures_In ans) as Hin.
    destruct (failures ans) as [|e0 rest] eqn:F; [discriminate|].
    injection Herrs as <-. split; [simpl in *; lia | exact Hin].
Qed.

End DestroySpec.

(** ** Static secret providers *)

Module StaticSpec.
Import Drone Secret SecretStatic.

Section Find.

Variable EqualFold : string -> string -> bool.

(** X15. A provider built by [StaticVars] never hands a secret to a pull
    request: none of its secrets is enabled for pull requests, so [Find]
    returns nil for every name when the build event is pull_request. *)
Theorem StaticVars_finds_nothing_for_pull_requests :
  forall (vars : list (string * string)) (req : Request),
    Build_Event (Request_Build req) = EventPullRequest ->
    Find EqualFold (StaticVars vars) req = (None, None).
Proof.
  intros vars req Hev. unfold StaticVars, Static.
  induction vars as [|kv vars IH]; simpl; [reflexivity|].
  destruct (EqualFold (fst kv) (Request_Name req)); simpl; [|exact IH].
  unfold restricted. cbn [Secret_PullRequest negb].
  rewrite Hev, String.eqb_refl. simpl. exact IH.
Qed.

(** X16. For any other build event, [Find] on a provider built by
    [StaticVars] returns the first variable, in the order the map was
    ranged over, whose key equals the requested name ignoring case, as a
    secret holding the variable's value; nil when there is none. *)
Theorem StaticVars_finds_the_first_matching_variable :
  forall (vars : list (string * string)) (req : Request),
    Build_Event (Request_Build req) <> EventPullRequest ->
    Find EqualFold (StaticVars vars) req =
    (match find (fun kv => EqualFold (fst kv) (Request_Name req)) vars with
     | Some kv => Some {| Secret_Name := fst kv;
                          Secret_Data := snd kv;
                          Secret_PullRequest := false |}
     | None => None
     end, None).
Proof.
  intros vars req Hev. unfold StaticVars, Static.
  induction vars as [|kv vars IH]; simpl; [reflexivity|].
  destruct (EqualFold (fst kv) (Request_Name req)); simpl; [|exact IH].
  unfold restricted. cbn [Secret_PullRequest negb].
  destruct (String.eqb_spec (Build_Event (Request_Build req))
                            EventPullRequest) as [E|E];
    [contradiction | reflexivity].
Qed.

(** X17. [Find] on a list made of two parts searches the first part and
    falls back on the second only when the first holds no secret for the
    request. *)
Theorem Find_searches_the_list_in_order :
  forall (first second : list Drone.Secret) (req : Request),
    Find EqualFold (first ++ second) req =
    match fst (Find EqualFold first req) with
    | Some secret => (Some secret, None)
    | None => Find EqualFold second req
    end.
Proof.
  intros first second req.
  induction first as [|s first IH]; simpl; [reflexivity|].
  destruct (EqualFold (Secret_Name s) (Request_Name req)); simpl;
    [|exact IH].
  destruct (restricted s req); [exact IH | reflexivity].
Qed.

End Find.

(** X15 and X16 on the variables token and key: a pull request finds
    nothing, a push finds the value. *)
Lemma StaticVars_token_pull_request :
  let req event := {| Request_Name := "TOKEN";
                      Request_Build := {| Build_ID := 1; Build_Event := event;
                                          Build_Params := [] |};
                      Request_Repo := {| Repo_ID := 1;
                                         Repo_Timeout := 60 |} |} in
  Build_Event (Request_Build (req EventPullRequest)) = EventPullRequest /\
  Find EqualFoldAscii (StaticVars [("key", "k"); ("token", "s3cr3t")])
       (req EventPullRequest) = (None, None).
Proof.
  intros req. split; [reflexivity|].
  apply (StaticVars_finds_nothing_for_pull_requests EqualFoldAscii).
  reflexivity.
Defined.

Lemma StaticVars_token_push :
  let req event := {| Request_Name := "TOKEN";
                      Request_Build := {| Build_ID := 1; Build_Event := event;
                                          Build_Params := [] |};
                      Request_Repo := {| Repo_ID := 1;
                                         Repo_Timeout := 60 |} |} in
  Build_Event (Request_Build (req EventPush)) <> EventPullRequest /\
  Find EqualFoldAscii (StaticVars [("key", "k"); ("token", "s3cr3t")])
       (req EventPush) =
  (Some {| Secret_Name := "token"; Secret_Data := "s3cr3t";
           Secret_PullRequest := false |}, None).
Proof.
  intros req.
  assert (H : Build_Event (Request_Build (req EventPush))
              <> EventPullRequest) by discriminate.
  split; [exact H|].
  exact (StaticVars_finds_the_first_matching_variable EqualFoldAscii
           [("key", "k"); ("token", "s3cr3t")] (req EventPush) H).
Defined.

End StaticSpec.

(** ** The runner beyond configuration errors *)

Module RunnerFlow.
Import Go Drone Runner RunnerReading.

#[local] Arguments populate {Manifest System SecretProvider Spec}
  pkg spec indices stage.
#[local] Arguments StepAt {Manifest System SecretProvider Spec} i _ _.
#[local] Arguments StepLen {Manifest System SecretProvider Spec} i _.
#[local] Arguments time_Now_Unix {Manifest System SecretProvider Spec} i.
#[local] Arguments envsubst_Eval {Manifest System SecretProvider Spec} i _ _.
#[local] Arguments manifest_ParseString {Manifest System SecretProvider Spec}
  i _.
#[local] Arguments Compiler_Compile
  {Manifest Resource System Netrc SecretProvider Spec} r _.
#[local] Arguments Client_Update
  {Manifest Resource System Netrc SecretProvider Spec} r _.
#[local] Arguments Exec
  {Manifest Resource System Netrc SecretProvider Spec} r _ _.
#[local] Arguments Lint
  {Manifest Resource System Netrc SecretProvider Spec} r _ _.
#[local] Arguments Lookup
  {Manifest Resource System Netrc SecretProvider Spec} r _ _.
#[local] Arguments Context_Config {System Netrc} c.
#[local] Arguments Args_Pipeline
  {Manifest Resource System Netrc SecretProvider} c.
#[local] Arguments Args_Manifest
  {Manifest Resource System Netrc SecretProvider} c.
#[local] Arguments Args_Stage
  {Manifest Resource System Netrc SecretProvider} c.

Section Flow.

Variables Manifest Resource System Netrc SecretProvider Spec : Type.
Variable pkg : Imports Manifest System SecretProvider Spec.
Variable s : Runner.Runner Manifest Resource System Netrc SecretProvider Spec.

(** X18. A build that [Match] refuses is failed with "insufficient
    permission to run the pipeline" and reported once; its configuration
    is never looked at, so even a valid one is neither compiled nor
    executed. *)
Theorem run_refused_build_is_failed_without_reading_the_config :
  forall (f : Repo -> Build -> bool) (stage : Stage)
         (data : Context System Netrc)
         (h : list (Event Manifest Resource System Netrc SecretProvider Spec)),
    Match s = Some f ->
    f (Context_Repo data) (Context_Build data) = false ->
    let state :=
      State_FailAll pkg
        (errorString "insufficient permission to run the pipeline")
        (new_state stage data) in
    run pkg s stage data h =
    (Reporter_ReportStage s state,
     h ++ [GoWatch (Build_ID (Context_Build data)); ReportStage state]).
Proof.
  intros f stage data h HM Hf state. subst state.
  unfold run, bind. unfold call at 1. rewrite HM, Hf. cbn [negb].
  unfold fail, call. rewrite <- app_assoc. reflexivity.
Qed.

Lemma populate_fields spec indices : forall stage,
  Stage_ID (populate pkg spec indices stage) = Stage_ID stage /\
  Stage_Name (populate pkg spec indices stage) = Stage_Name stage /\
  Stage_Number (populate pkg spec indices stage) = Stage_Number stage /\
  Stage_Machine (populate pkg spec indices stage) = Stage_Machine stage /\
  Stage_Status (populate pkg spec indices stage) = Stage_Status stage /\
  Stage_Error (populate pkg spec indices stage) = Stage_Error stage /\
  Stage_Started (populate pkg spec indices stage) = Stage_Started stage /\
  Stage_Stopped (populate pkg spec indices stage) = Stage_Stopped stage.
Proof.
  induction indices as [|i rest IH]; intros stage; simpl.
  - repeat split.
  - destruct (RunPolicy_eqb (GetRunPolicy (StepAt pkg spec i)) RunNever);
      [apply IH|].
    match goal with
    | |- context [populate pkg spec rest ?st] => destruct (IH st)
        as (E1 & E2 & E3 & E4 & E5 & E6 & E7 & E8)
    end.
    rewrite E1, E2, E3, E4, E5, E6, E7, E8. repeat split.
Qed.

(** X19. The loop of [run] that fills [stage.Steps] appends one step for
    every step of the compiled spec whose run policy is not [RunNever],
    in the order of the spec and after the steps the stage already had.
    The appended steps bear the names of the spec's steps, are numbered
    consecutively from the number of steps the stage had plus one, are
    pending, belong to the stage, and ignore errors exactly when the
    spec's step has the policy [ErrIgnore]; no other field of the stage
    changes. *)
Theorem populate_appends_the_steps_that_run :
  forall (spec : Spec) (indices : list nat) (stage : Stage),
    let kept := filter runs (map (StepAt pkg spec) indices) in
    exists added,
      Stage_Steps (populate pkg spec indices stage) =
      Stage_Steps stage ++ added /\
      map Step_Name added = map GetName kept /\
      map Step_Number added =
      map (fun i => Z.of_nat (length (Stage_Steps stage) + i))
          (seq 1 (length kept)) /\
      map Step_ErrIgnore added =
      map (fun src => ErrPolicy_eqb (GetErrPolicy src) ErrIgnore) kept /\
      (forall st, In st added ->
         Step_Status st = StatusPending /\ Step_StageID st = Stage_ID stage)
      /\
      Stage_ID (populate pkg spec indices stage) = Stage_ID stage /\
      Stage_Name (populate pkg spec indices stage) = Stage_Name stage /\
      Stage_Status (populate pkg spec indices stage) = Stage_Status stage.
Proof.
  intros spec indices. induction indices as [|i rest IH]; intros stage kept.
  - exists []. simpl. rewrite app_nil_r. repeat split; contradiction.
  - subst kept. cbn [map filter populate].
    assert (Hruns : runs (StepAt pkg spec i) =
                    negb (RunPolicy_eqb (GetRunPolicy (StepAt pkg spec i))
                                        RunNever)) by reflexivity.
    rewrite Hruns.
    destruct (RunPolicy_eqb (GetRunPolicy (StepAt pkg spec i)) RunNever)
      eqn:Hnever; cbn [negb]; [apply IH|].
    match goal with
    | |- context [populate pkg spec rest ?s0] =>
        destruct (IH s0) as (added & Hsteps & Hnames & Hnums & Hign & Hall
                             & Hid & Hname & Hstatus)
    end.
    cbn [Stage_Steps Stage_ID Stage_Name Stage_Status] in *.
    eexists (_ :: added). rewrite Hsteps, <- app_assoc.
    split; [reflexivity|]. cbn [map length seq].
    cbn [Step_Name Step_Number Step_ErrIgnore].
    rewrite Hnames, Hign, Hnums.
    split; [reflexivity|]. split.
    + f_equal; [lia|].
      rewrite <- (seq_shift _ 1), map_map, length_app. cbn [length].
      apply map_ext. intros a. f_equal. lia.
    + split; [reflexivity|]. split; [|repeat split; assumption].
      intros x [<-|Hin]; [split; reflexivity | apply Hall; exact Hin].
Qed.

(** X20. With a valid configuration [run] compiles, marks the stage as
    running with the populated steps and the current time, and sends
    that update; it executes the spec only when the update succeeded and
    then returns what the execution returns; when the update fails it
    returns that error.  On this path [run] itself never reports the
    stage. *)
Theorem run_valid_config_updates_then_executes :
  forall (stage : Stage) (data : Context System Netrc) (config : string)
         (manifest : Manifest) (resource : Resource)
         (h : list (Event Manifest Resource System Netrc SecretProvider Spec)),
    admitted s data ->
    envsubst_Eval pkg (Context_Config data) (subf pkg s stage data)
    = inl config ->
    manifest_ParseString pkg config = inl manifest ->
    Lookup s (Stage_Name stage) manifest = inl resource ->
    Lint s resource (Context_Repo data) = None ->
    exists args spec stage',
      spec = Compiler_Compile s args /\
      Args_Pipeline args = resource /\
      Args_Manifest args = manifest /\
      Args_Stage args = stage /\
      Stage_Status stage' = StatusRunning /\
      Stage_Started stage' = time_Now_Unix pkg /\
      Stage_Steps stage' =
      Stage_Steps (populate pkg spec (seq 0 (StepLen pkg spec)) stage) /\
      run pkg s stage data h =
      match Client_Update s stage' with
      | Some e =>
          (Some e,
           h ++ [GoWatch (Build_ID (Context_Build data)); Compile args;
                 Update stage'])
      | None =>
          (Exec s spec (new_state stage' data),
           h ++ [GoWatch (Build_ID (Context_Build data)); Compile args;
                 Update stage'; Execute spec (new_state stage' data)])
      end.
Proof.
  intros stage data config manifest resource h Hadm HE HP HL HLint.
  unfold run, bind. unfold call at 1.
  assert (HM : match Match s with
               | Some f => negb (f (Context_Repo data) (Context_Build data))
               | None => false
               end = false).
  { unfold admitted in Hadm. destruct (Match s); [rewrite Hadm|];
      reflexivity. }
  rewrite HM, HE, HP, HL, HLint.
  unfold call at 1. unfold call at 1.
  match goal with
  | |- context [Compiler_Compile s ?a] => set (args := a)
  end.
  set (spec := Compiler_Compile s args).
  match goal with
  | |- context [Client_Update s ?st] => set (stage' := st)
  end.
  exists args, spec, stage'.
  split; [reflexivity|]. split; [reflexivity|]. split; [reflexivity|].
  split; [reflexivity|]. split; [reflexivity|]. split; [reflexivity|].
  split; [reflexivity|].
  destruct (Client_Update s stage').
  - repeat rewrite <- app_assoc. reflexivity.
  - unfold call. repeat rewrite <- app_assoc. reflexivity.
Qed.

End Flow.

(** X18 at a runner that refuses every build, on a valid configuration. *)
Lemma run_refused :
  Match RunnerExtraScenario.refusing = Some (fun _ _ => false) /\
  run RunnerScenario.imports RunnerExtraScenario.refusing
      RunnerScenario.stage RunnerExtraScenario.valid_config [] =
  (None,
   [] ++ [GoWatch 42;
          ReportStage
            (State_FailAll RunnerScenario.imports
               (errorString "insufficient permission to run the pipeline")
               (new_state RunnerScenario.stage
                          RunnerExtraScenario.valid_config))]).
Proof.
  split; [reflexivity|].
  exact (run_refused_build_is_failed_without_reading_the_config
           _ _ _ _ _ _ RunnerScenario.imports RunnerExtraScenario.refusing
           (fun _ _ => false) RunnerScenario.stage
           RunnerExtraScenario.valid_config [] eq_refl eq_refl).
Defined.

(** X20 at a runner whose compiler yields three steps. *)
Lemma run_three_steps :
  admitted RunnerExtraScenario.compiling RunnerExtraScenario.valid_config /\
  exists args spec stage',
    spec = Compiler_Compile RunnerExtraScenario.compiling args /\
    Args_Pipeline args = "kind: pipeline" /\
    Args_Manifest args = "kind: pipeline" /\
    Args_Stage args = RunnerScenario.stage /\
    Stage_Status stage' = StatusRunning /\
    Stage_Started stage' = time_Now_Unix RunnerScenario.imports /\
    Stage_Steps stage' =
    Stage_Steps (populate RunnerScenario.imports spec
                   (seq 0 (StepLen RunnerScenario.imports spec))
                   RunnerScenario.stage) /\
    run RunnerScenario.imports RunnerExtraScenario.compiling
        RunnerScenario.stage RunnerExtraScenario.valid_config [] =
    match Client_Update RunnerExtraScenario.compiling stage' with
    | Some e => (Some e, [] ++ [GoWatch 42; Compile args; Update stage'])
    | None =>
        (Exec RunnerExtraScenario.compiling spec
              (new_state stage' RunnerExtraScenario.valid_config),
         [] ++ [GoWatch 42; Compile args; Update stage';
                Execute spec
                  (new_state stage' RunnerExtraScenario.valid_config)])
    end.
Proof.
  split; [exact I|].
  exact (run_valid_config_updates_then_executes
           _ _ _ _ _ _ RunnerScenario.imports RunnerExtraScenario.compiling
           RunnerScenario.stage RunnerExtraScenario.valid_config
           "kind: pipeline" "kind: pipeline" "kind: pipeline" []
           I eq_refl eq_refl eq_refl eq_refl).
Defined.

(** The steps the stage gets from the three compiled steps: the one that
    never runs is left out and takes no number. *)
Example populate_three_steps :
  Stage_Steps (populate RunnerScenario.imports RunnerExtraScenario.three_steps
                 (seq 0 3) RunnerScenario.stage) =
  [ {| Step_Name := "build"; Step_Number := 1; Step_StageID := 7;
       Step_Status := "pending"; Step_ErrIgnore := false |};
    {| Step_Name := "notify"; Step_Number := 2; Step_StageID := 7;
       Step_Status := "pending"; Step_ErrIgnore := true |} ].
Proof. reflexivity. Qed.

End RunnerFlow.

(** ** Creating the engine *)

Module NewSpec.
Import Go Engine EngineNew.

(** X21. [New] prefers the in-cluster configuration and falls back on the
    kubeconfig file under the home directory.  It fails exactly when both
    ways fail, and the error it returns is then the one of the in-cluster
    attempt: the error of the kubeconfig attempt and a failure to find
    the home directory are never reported. *)
Theorem New_fails_only_with_the_in_cluster_error :
  forall (Config : Type) (out : Outside Config) (err : error),
    let path :=
      filepath_Join out [fst (os_UserHomeDir out); ".kube"; "config"] in
    let in_cluster_fails_with e :=
      rest_InClusterConfig out = inr e \/
      exists config,
        rest_InClusterConfig out = inl config /\
        kubernetes_NewForConfig out config = inr e in
    let kubeconfig_fails :=
      (exists e, clientcmd_BuildConfigFromFlags out "" path = inr e) \/
      exists config e,
        clientcmd_BuildConfigFromFlags out "" path = inl config /\
        kubernetes_NewForConfig out config = inr e in
    New out = inr err <-> in_cluster_fails_with err /\ kubeconfig_fails.
Proof.
  intros Config out err path in_cluster_fails_with kubeconfig_fails.
  subst in_cluster_fails_with kubeconfig_fails.
  unfold New, NewInCluster, NewFromConfig. subst path.
  destruct (os_UserHomeDir out) as [dir herr]. cbn [fst].
  set (path := filepath_Join out [dir; ".kube"; "config"]).
  destruct (rest_InClusterConfig out) as [config|e].
  - destruct (kubernetes_NewForConfig out config) as [clientset|e] eqn:N.
    + split; [discriminate|].
      intros [[H|(c & H & H')] _]; [discriminate|].
      injection H as <-. rewrite N in H'. discriminate.
    + destruct (clientcmd_BuildConfigFromFlags out "" path) as [c2|e2].
      * destruct (kubernetes_NewForConfig out c2) as [cs2|e3] eqn:N2.
        -- split; [discriminate|].
           intros [_ [[e' H]|(c & e' & H & H')]]; [discriminate|].
           injection H as <-. rewrite N2 in H'. discriminate.
        -- split.
           ++ intros H. injection H as <-. split.
              ** right. exists config. split; [reflexivity | exact N].
              ** right. exists c2, e3. split; [reflexivity | exact N2].
           ++ intros [[H|(c & H & H')] _]; [discriminate|].
              injection H as <-. rewrite N in H'. injection H' as <-.
              reflexivity.
      * split.
        -- intros H. injection H as <-. split.
           ++ right. exists config. split; [reflexivity | exact N].
           ++ left. exists e2. reflexivity.
        -- intros [[H|(c & H & H')] _]; [discriminate|].
           injection H as <-. rewrite N in H'. injection H' as <-.
           reflexivity.
  - destruct (clientcmd_BuildConfigFromFlags out "" path) as [c2|e2].
    + destruct (kubernetes_NewForConfig out c2) as [cs2|e3] eqn:N2.
      * split; [discriminate|].
        intros [_ [[e' H]|(c & e' & H & H')]]; [discriminate|].
        injection H as <-. rewrite N2 in H'. discriminate.
      * split.
        -- intros H. injection H as <-. split.
           ++ left. reflexivity.
           ++ right. exists c2, e3. split; [reflexivity | exact N2].
        -- intros [[H|(c & H & H')] _]; [|discriminate].
           injection H as <-. reflexivity.
    + split.
      * intros H. injection H as <-. split.
        -- left. reflexivity.
        -- left. exists e2. reflexivity.
      * intros [[H|(c & H & H')] _]; [|discriminate].
        injection H as <-. reflexivity.
Qed.

(** Outside a cluster and without a kubeconfig file: the error is the
    one of the in-cluster attempt. *)
Example New_outside_a_cluster :
  let out : Outside unit := {|
    rest_InClusterConfig :=
      inr (errorString "unable to load in-cluster configuration");
    clientcmd_BuildConfigFromFlags := fun _ _ =>
      inr (errorString "stat /root/.kube/config: no such file or directory");
    kubernetes_NewForConfig := fun _ =>
      inr (errorString "unused");
    os_UserHomeDir := ("/root", None);
    filepath_Join := fun parts => String.concat "/" parts |} in
  New out = inr (errorString "unable to load in-cluster configuration").
Proof. reflexivity. Qed.

End NewSpec.

(** ** start: what success means *)

Module StartApplied.
Import Go Engine Observe Discipline.

Section Applied.

Variable statusesWhiteList : list string.
Variable host : Host.
Variable k : Kubernetes.
Variable spec : Spec.
Variable step : Step.

Lemma start_attempt_cases h :
  exists ta,
    snd (start_attempt statusesWhiteList k spec step h) = h ++ ta /\
    (fst (start_attempt statusesWhiteList k spec step h) = None ->
     applied statusesWhiteList k spec step h ta) /\
    (never_times_out k ->
     fst (start_attempt statusesWhiteList k spec step h)
     <> Some ErrWaitTimeout).
Proof.
  unfold start_attempt, bind, emit, write, ret.
  destruct (api_get (client k) (h ++ [Lock]) _ _) as [pod|e] eqn:Hget.
  - pose proof (eq_refl (swapped statusesWhiteList step pod)) as Hsw.
    unfold swapped at 1 in Hsw.
    destruct (swap statusesWhiteList step (Pod_Containers pod)
                   (Pod_Annotations pod)) as [containers annotations].
    rewrite Hsw.
    match goal with
    | |- context [api_write (client k) ?h' ?ev] =>
        destruct (api_write (client k) h' ev) as [e|] eqn:Hw;
        exists [Lock; PodsGet (PodSpec_Namespace (Spec_PodSpec spec))
                              (PodSpec_Name (Spec_PodSpec spec)); ev; Unlock]
    end; cbn [fst snd]; repeat rewrite <- app_assoc;
      (split; [reflexivity|]); split.
    + discriminate.
    + intros [_ Hnw] E. injection E as ->. exact (Hnw _ _ Hw).
    + intros _. exists [], pod. rewrite app_nil_r. cbn [app].
      split; [reflexivity|]. split; [exact Hget | exact Hw].
    + discriminate.
  - exists [Lock; PodsGet (PodSpec_Namespace (Spec_PodSpec spec))
                          (PodSpec_Name (Spec_PodSpec spec)); Unlock].
    cbn [fst snd]; repeat rewrite <- app_assoc.
    split; [reflexivity|]. split; [discriminate|].
    intros [Hng _] E. injection E as ->. exact (Hng _ _ _ Hget).
Qed.

Lemma applied_later h ta d t :
  applied statusesWhiteList k spec step ((h ++ ta) ++ [Sleep d]) t ->
  applied statusesWhiteList k spec step h (ta ++ Sleep d :: t).
Proof.
  intros (t0 & pod & -> & Hget & Hw).
  exists (ta ++ Sleep d :: t0), pod.
  split; [rewrite <- app_assoc; reflexivity|].
  assert (E : h ++ ta ++ Sleep d :: t0 = ((h ++ ta) ++ [Sleep d]) ++ t0).
  { repeat rewrite <- app_assoc. reflexivity. }
  rewrite E. split; assumption.
Qed.

Lemma retry_loop_applied : forall fuel n last h,
  (1 <= n)%Z -> Z.to_nat n <= fuel -> never_times_out k ->
  exists err last' t,
    ExponentialBackoff fuel host (remaining n)
      (fun lastErr : option error =>
         bind (start_attempt statusesWhiteList k spec step) (fun err =>
           match err with
           | None => ret ((true, None), lastErr)
           | Some e => if IsConflict e then ret ((false, None), Some e)
                       else ret ((false, Some e), lastErr)
           end)) last h
    = (Some (err, last'), h ++ t) /\
    (err = None -> applied statusesWhiteList k spec step h t) /\
    (err = Some ErrWaitTimeout -> exists e, last' = Some e).
Proof.
  induction fuel as [|fuel IH]; intros n last h Hn Hfuel Hnt; [lia|].
  cbn [ExponentialBackoff]. unfold remaining at 1. cbn [Backoff_Steps].
  replace (n >? 0)%Z with true by (symmetry; apply Z.gtb_lt; lia).
  destruct (start_attempt_cases h) as (ta & Hsnd & Happ & Hto).
  unfold bind at 1. unfold bind at 1.
  destruct (start_attempt statusesWhiteList k spec step h) as [r h1].
  cbn [fst snd] in *. subst h1.
  destruct r as [e|].
  - destruct (IsConflict e).
    + unfold ret at 1. cbn [isSome orb].
      unfold remaining at 1. cbn [Backoff_Steps].
      destruct (n =? 1)%Z eqn:N1.
      * unfold ret. exists (Some ErrWaitTimeout), (Some e), ta.
        split; [reflexivity|]. split; [discriminate|].
        intros _. exists e. reflexivity.
      * apply Z.eqb_neq in N1.
        destruct (RunSpec.Backoff_Step_remaining host n (h ++ ta) Hn)
          as (d & Hstep & _).
        unfold bind at 1. rewrite Hstep.
        unfold bind at 1. unfold time_Sleep, emit. cbn [fst snd].
        destruct (IH (n - 1)%Z (Some e) ((h ++ ta) ++ [Sleep d]))
          as (err & last' & t & Hrun & Happ' & Hto'); [lia | lia | exact Hnt |].
        exists err, last', (ta ++ Sleep d :: t).
        split; [rewrite Hrun; repeat rewrite <- app_assoc; reflexivity|].
        split; [|exact Hto'].
        intros E. apply applied_later. exact (Happ' E).
    + unfold ret. cbn [isSome orb]. exists (Some e), last, ta.
      split; [reflexivity|]. split; [discriminate|].
      intros E. exfalso. exact (Hto Hnt E).
  - unfold ret. cbn [isSome orb]. exists None, last, ta.
    split; [reflexivity|]. split; [|discriminate].
    intros _. apply Happ. reflexivity.
Qed.

(** X22. On an API server that never answers with the timeout sentinel of
    the wait package, [start] reports success only after an update was
    accepted: its events then end with an attempt that read the pod and
    sent it back with the step's container image swapped in, and the API
    server answered that update without error.  Conflicts met before are
    forgotten. *)
Theorem start_succeeds_only_after_an_accepted_update :
  forall (h t : list Event),
    never_times_out k ->
    start statusesWhiteList host k spec step h = (Some None, h ++ t) ->
    applied statusesWhiteList k spec step h t.
Proof.
  intros h t Hnt. unfold start, RetryOnConflict, OnError.
  change backoff with (remaining 15).
  change (Backoff_Steps (remaining 15)) with 15%Z.
  destruct (retry_loop_applied (S (Z.to_nat 15)) 15 None h)
    as (err & last' & t' & Hrun & Happ & Hto); [lia | lia | exact Hnt |].
  unfold bind at 1. rewrite Hrun. unfold ret.
  intros E. injection E as Herr Ht.
  apply app_inv_head in Ht. subst t'.
  destruct err as [e|].
  - destruct e; cbn [isErrWaitTimeout] in Herr; try discriminate.
    destruct (Hto eq_refl) as (e & ->). discriminate.
  - apply Happ. reflexivity.
Qed.

End Applied.

(** X22 in the world of scenario 8: a conflict on the first update, then
    success. *)
Lemma start_applied_after_one_conflict :
  let t := snd (start Scenario.whitelist Scenario.flag_set
                      Scenario.conflict_once Scenario.one_step
                      Scenario.build_step []) in
  never_times_out Scenario.conflict_once /\
  start Scenario.whitelist Scenario.flag_set Scenario.conflict_once
        Scenario.one_step Scenario.build_step [] = (Some None, [] ++ t) /\
  applied Scenario.whitelist Scenario.conflict_once Scenario.one_step
          Scenario.build_step [] t.
Proof.
  intros t.
  assert (Hnt : never_times_out Scenario.conflict_once).
  { split.
    - intros h ns name. discriminate.
    - intros h ev. simpl. destruct (existsb Scenario.isUpdate h); discriminate. }
  assert (Hstart : start Scenario.whitelist Scenario.flag_set
                         Scenario.conflict_once Scenario.one_step
                         Scenario.build_step [] = (Some None, [] ++ t))
    by (vm_compute; reflexivity).
  split; [exact Hnt|]. split; [exact Hstart|].
  exact (start_succeeds_only_after_an_accepted_update
           Scenario.whitelist Scenario.flag_set Scenario.conflict_once
           Scenario.one_step Scenario.build_step [] t Hnt Hstart).
Defined.

End StartApplied.
